(** * mcpMetadata: the setup wizard [setup.mjs]

    A shallow embedding of the wizard and the properties of it that the
    specification states.

    Conventions of the model.
    - A JavaScript string is a sequence of code units; it is modelled by
      [string], each [ascii] standing for one code unit below 256 (the
      Latin-1 range, where the line terminators are LF and CR).
    - The tree below [FORCE_APP_DIR] is a finite map from the name of an
      entry to a regular file or to a sub-directory with its entries, each
      a regular file or a directory.  A path [join(FORCE_APP_DIR, dir, name)]
      is the pair [(dir, name)]: the names that reach [join] are validated
      identifiers, which [join] leaves as they are.
    - The file operations fail as the tree decides.  What the system can
      refuse for other reasons (a name too long, a permission, the space
      left) is not in the model: what is stated about an operation, a loop
      or a run that returns is stated on the hypothesis that it returned.
    - Console output is a trace of events; colour codes and glyphs are left
      out of the payloads.
    - Standard input is the list of the lines still to come. *)

From Stdlib Require Import Ascii String List Bool Arith Lia.
From stdpp Require Import base option list gmap strings sorting pretty.

Local Open Scope stdpp_scope.

(** ** JavaScript string primitives *)

Module JS.

(** [s.length] *)
Abbreviation len := String.length.

(** The code units of [s] from index [n] on. *)
Fixpoint drop (n : nat) (s : string) : string :=
  match n, s with
  | 0, _ => s
  | S n', String _ s' => drop n' s'
  | S _, EmptyString => EmptyString
  end.

(** The substring of [s] from index [from] (inclusive) to [to] (exclusive). *)
Definition slice (s : string) (from to : nat) : string :=
  String.substring from (to - from) s.

(** The search of StringIndexOf over the rest [s] of the string, whose first
    code unit has index [i]. *)
Fixpoint scan (searchValue s : string) (i : nat) : option nat :=
  if String.prefix searchValue s then Some i
  else match s with
       | EmptyString => None
       | String _ s' => scan searchValue s' (S i)
       end.

(** StringIndexOf(string, searchValue, fromIndex); [None] is NOT_FOUND. *)
Definition stringIndexOf (s searchValue : string) (fromIndex : nat) : option nat :=
  if fromIndex <=? len s then scan searchValue (drop fromIndex s) fromIndex
  else None.

(** GetSubstitution(matched, str, position, captures, namedCaptures, template)
    for a string pattern: there are no captures and no named captures, so
    [$n], [$nn] and [$<] stand for themselves. *)
Fixpoint getSubstitution (matched str : string) (position : nat)
    (template : string) : string :=
  match template with
  | EmptyString => EmptyString
  | String c rest =>
      let literal := String c (getSubstitution matched str position rest) in
      if Ascii.eqb c "$" then
        match rest with
        | EmptyString => literal
        | String d rest' =>
            let more := getSubstitution matched str position rest' in
            if Ascii.eqb d "$" then String "$" more
            else if Ascii.eqb d "`" then slice str 0 position +:+ more
            else if Ascii.eqb d "&" then matched +:+ more
            else if Ascii.eqb d "'" then
              let tailPos := position + len matched in
              (if len str <=? tailPos then EmptyString else drop tailPos str)
              +:+ more
            else literal
        end
      else literal
  end.

(** The loop of String.prototype.replaceAll that collects the match
    positions.  Every round moves the position forward by [advanceBy >= 1],
    so [S (len s)] rounds are enough; [fuel] bounds the rounds. *)
Fixpoint matchPositions (fuel : nat) (s searchString : string)
    (advanceBy : nat) (position : option nat) : list nat :=
  match fuel, position with
  | S fuel', Some p =>
      p :: matchPositions fuel' s searchString advanceBy
             (stringIndexOf s searchString (p + advanceBy))
  | _, _ => []
  end.

(** String.prototype.replaceAll(searchValue, replaceValue), both strings. *)
Definition replaceAll (s searchString replaceValue : string) : string :=
  let searchLength := len searchString in
  let advanceBy := Nat.max 1 searchLength in
  let positions :=
    matchPositions (S (len s)) s searchString advanceBy
      (stringIndexOf s searchString 0) in
  let '(result, endOfLastMatch) :=
    fold_left
      (fun '(result, endOfLastMatch) p =>
         let preserved := slice s endOfLastMatch p in
         let replacement := getSubstitution searchString s p replaceValue in
         (result +:+ preserved +:+ replacement, p + searchLength))
      positions (EmptyString, 0) in
  if endOfLastMatch <? len s
  then result +:+ drop endOfLastMatch s
  else result.

(** The lower-case mapping of one code unit of the Latin-1 range: A-Z and
    the capital letters U+00C0-U+00DE (the sign U+00D7 apart) move up by 32. *)
Definition lowerUnit (c : ascii) : ascii :=
  let n := nat_of_ascii c in
  if (65 <=? n) && (n <=? 90) then ascii_of_nat (n + 32)
  else if (192 <=? n) && (n <=? 222) && negb (n =? 215) then ascii_of_nat (n + 32)
  else c.

(** String.prototype.toLowerCase() *)
Fixpoint toLowerCase (s : string) : string :=
  match s with
  | EmptyString => EmptyString
  | String c s' => String (lowerUnit c) (toLowerCase s')
  end.

End JS.

(** ** Regular expressions

    The three regular expressions of the wizard use literals, character
    classes, [.], [?], [*], [+] and sequencing, anchored by [^] and, for two
    of them, by [$].  They are kept as syntax and run by derivatives. *)

Module Regex.

Inductive regex : Type :=
| Never                          (* matches nothing *)
| Eps                            (* the empty match *)
| Class (p : ascii -> bool)      (* one code unit of a class *)
| Seq (r1 r2 : regex)
| Alt (r1 r2 : regex)
| Star (r : regex).

(** [r+] and [r?] *)
Definition Plus (r : regex) : regex := Seq r (Star r).
Definition Opt (r : regex) : regex := Alt r Eps.

(** One given code unit, and a literal string. *)
Definition Chr (c : ascii) : regex := Class (Ascii.eqb c).
Fixpoint Lit (s : string) : regex :=
  match s with
  | EmptyString => Eps
  | String c s' => Seq (Chr c) (Lit s')
  end.

(** The range [lo-hi] of a character class. *)
Definition range (lo hi c : ascii) : bool :=
  (Ascii.leb lo c) && (Ascii.leb c hi).

(** LineTerminator: LF and CR (U+2028 and U+2029 lie outside the modelled
    range of code units). *)
Definition lineTerminator (c : ascii) : bool :=
  Ascii.eqb c "010" || Ascii.eqb c "013".

(** [.] without the [s] flag: any code unit but a line terminator. *)
Definition dot (c : ascii) : bool := negb (lineTerminator c).
Definition Dot : regex := Class dot.

(** [[a-zA-Z]] and [[a-zA-Z0-9_]] *)
Definition letter (c : ascii) : bool := range "a" "z" c || range "A" "Z" c.
Definition word (c : ascii) : bool :=
  range "a" "z" c || range "A" "Z" c || range "0" "9" c || Ascii.eqb c "_".

Fixpoint nullable (r : regex) : bool :=
  match r with
  | Never => false
  | Eps => true
  | Class _ => false
  | Seq r1 r2 => nullable r1 && nullable r2
  | Alt r1 r2 => nullable r1 || nullable r2
  | Star _ => true
  end.

(** The derivative of [r] by the code unit [c]. *)
Fixpoint deriv (c : ascii) (r : regex) : regex :=
  match r with
  | Never => Never
  | Eps => Never
  | Class p => if p c then Eps else Never
  | Seq r1 r2 =>
      if nullable r1 then Alt (Seq (deriv c r1) r2) (deriv c r2)
      else Seq (deriv c r1) r2
  | Alt r1 r2 => Alt (deriv c r1) (deriv c r2)
  | Star r1 => Seq (deriv c r1) (Star r1)
  end.

(** [/^r$/.test(s)]: the whole of [s] matches [r]. *)
Fixpoint testWhole (r : regex) (s : string) : bool :=
  match s with
  | EmptyString => nullable r
  | String c s' => testWhole (deriv c r) s'
  end.

(** [/^r/.test(s)]: some prefix of [s] matches [r]. *)
Fixpoint testPrefix (r : regex) (s : string) : bool :=
  nullable r ||
  match s with
  | EmptyString => false
  | String c s' => testPrefix (deriv c r) s'
  end.

(** [s.match(/^(r1)r2$/)], its group 1: the splits of [s] are tried with the
    longest group first, as the backtracking of a greedy group does.  [pre]
    is the part of the string already taken into the group. *)
Fixpoint group1From (r1 r2 : regex) (pre s : string) : option string :=
  match s with
  | EmptyString =>
      if testWhole r1 pre && nullable r2 then Some pre else None
  | String c s' =>
      match group1From r1 r2 (pre +:+ String c EmptyString) s' with
      | Some g => Some g
      | None => if testWhole r1 pre && testWhole r2 s then Some pre else None
      end
  end.

Definition matchGroup1 (r1 r2 : regex) (s : string) : option string :=
  group1From r1 r2 EmptyString s.

(** What a regular expression matches, as a relation. *)
Inductive matches : regex -> string -> Prop :=
| MEps : matches Eps EmptyString
| MClass p c : p c = true -> matches (Class p) (String c EmptyString)
| MSeq r1 r2 s1 s2 : matches r1 s1 -> matches r2 s2 -> matches (Seq r1 r2) (s1 +:+ s2)
| MAltL r1 r2 s : matches r1 s -> matches (Alt r1 r2) s
| MAltR r1 r2 s : matches r2 s -> matches (Alt r1 r2) s
| MStarNil r : matches (Star r) EmptyString
| MStarCons r s1 s2 : matches r s1 -> matches (Star r) s2 -> matches (Star r) (s1 +:+ s2).

End Regex.

(** ** Configuration (lines 21-77) *)

Import Regex.

Definition TEMPLATE_NAME : string := "template".

(** The line feed of the multi-line texts. *)
Definition nl : string := String "010" EmptyString.

(** [/^[a-zA-Z][a-zA-Z0-9_]*$/], anchored at both ends. *)
Definition identifierRe : regex := Seq (Class letter) (Star (Class word)).

(** [/^https?:\/\/.+/], anchored at the start only. *)
Definition urlRe : regex :=
  Seq (Lit "http") (Seq (Opt (Chr "s")) (Seq (Lit "://") (Plus Dot))).

(** One entry of [VARIABLES]. *)
Record variable : Type := {
  v_key : string;
  v_prompt : string;
  v_description : string;
  v_validate : string -> bool;
  v_error : string;
  v_optional : bool
}.

Definition VARIABLES : list variable := [
  {| v_key := "MCP_NAME";
     v_prompt := "MCP server name";
     v_description :=
       "A unique identifier for your MCP server (e.g., weather_api, slack_mcp)."
       +:+ nl +:+ "This will be used for file names and labels in Salesforce.";
     v_validate := fun val => testWhole identifierRe val;
     v_error := "Must start with a letter and contain only letters, numbers, and underscores.";
     v_optional := false |};
  {| v_key := "MCP_SERVER_URL";
     v_prompt := "MCP server URL";
     v_description :=
       "The full URL of your MCP server endpoint."
       +:+ nl +:+ "Example: https://mcp.example.com/api";
     v_validate := fun val => testPrefix urlRe val;
     v_error := "Must be a valid URL starting with http:// or https://";
     v_optional := false |};
  {| v_key := "AUTH_PROVIDER_URL";
     v_prompt := "OAuth token endpoint URL";
     v_description :=
       "The OAuth 2.0 token endpoint for authentication."
       +:+ nl +:+ "Example: https://auth.example.com/oauth/token";
     v_validate := fun val => testPrefix urlRe val;
     v_error := "Must be a valid URL starting with http:// or https://";
     v_optional := false |};
  {| v_key := "NAMESPACE";
     v_prompt := "Salesforce namespace (optional)";
     v_description :=
       "Your Salesforce namespace prefix, if applicable."
       +:+ nl +:+ "Leave empty if you don't have a namespace.";
     v_validate := fun val => String.eqb val "" || testWhole identifierRe val;
     v_error := "Must start with a letter and contain only letters, numbers, and underscores.";
     v_optional := true |}
].

(** One entry of [FILES]. *)
Record fileRule : Type := {
  dir : string;
  oldName : string;
  newName : string -> string
}.

Definition FILES : list fileRule := [
  {| dir := "externalCredentials";
     oldName := TEMPLATE_NAME +:+ ".externalCredential-meta.xml";
     newName := fun name => name +:+ ".externalCredential-meta.xml" |};
  {| dir := "externalServiceRegistrations";
     oldName := TEMPLATE_NAME +:+ ".externalServiceRegistration-meta.xml";
     newName := fun name => name +:+ ".externalServiceRegistration-meta.xml" |};
  {| dir := "namedCredentials";
     oldName := TEMPLATE_NAME +:+ ".namedCredential-meta.xml";
     newName := fun name => name +:+ ".namedCredential-meta.xml" |};
  {| dir := "permissionsets";
     oldName := TEMPLATE_NAME +:+ "_Perm_Set.permissionset-meta.xml";
     newName := fun name => name +:+ "_Perm_Set.permissionset-meta.xml" |}
].

(** ** The console (lines 83-110) *)

Inductive event : Type :=
| ConsoleClear                  (* console.clear() *)
| ConsoleLog (line : string)    (* console.log(line) *)
| LogHeader (msg : string)      (* log.header(msg) *)
| LogSuccess (msg : string)     (* log.success(msg) *)
| LogError (msg : string)       (* log.error(msg) *)
| LogErrorMessage               (* log.error(err.message), for the error caught *)
| LogWarning (msg : string)     (* log.warning(msg) *)
| LogInfo (msg : string)        (* log.info(msg) *)
| RlQuestion (query : string)   (* rl.question(query, ...) *)
| RlClose.                      (* rl.close() *)

(** ** The file system *)

(** An entry of a sub-directory of [FORCE_APP_DIR]: a regular file with its
    content, or a directory (the wizard never looks below it). *)
Inductive node : Type :=
| File (content : string)
| Directory.

(** An entry of [FORCE_APP_DIR] itself: a regular file, or a sub-directory
    with its entries. *)
Inductive entry : Type :=
| Plain (content : string)
| Folder (entries : gmap string node).

(** The tree below [FORCE_APP_DIR], from the name of an entry to the entry. *)
Abbreviation fs := (gmap string entry).

(** A path below [FORCE_APP_DIR], by its components. *)
Definition path : Type := list string.
Definition join (parts : list string) : path := parts.

(** The errors that the tree decides.  The system can fail an operation for
    other reasons (a name too long for it, a permission, the space left):
    the model has none of these, so what is stated about an operation that
    returns is stated on the hypothesis that it returned. *)
Inductive ioError : Type := ENOENT | EISDIR | ENOTDIR.

Definition lookupPath (disk : fs) (p : path) : option node :=
  match p with
  | [] => Some Directory
  | [d] =>
      match disk !! d with
      | Some (Folder _) => Some Directory
      | Some (Plain content) => Some (File content)
      | None => None
      end
  | [d; n] =>
      match disk !! d with
      | Some (Folder entries) => entries !! n
      | _ => None
      end
  | _ => None
  end.

(** Why a path is not found: a component that must be a directory is a
    regular file, or an entry is missing. *)
Definition notFound (disk : fs) (p : path) : ioError :=
  match p with
  | d :: _ :: _ =>
      match disk !! d with
      | Some (Plain _) => ENOTDIR
      | _ => ENOENT
      end
  | _ => ENOENT
  end.

(** fs.existsSync(p) *)
Definition existsSync (disk : fs) (p : path) : bool :=
  match lookupPath disk p with Some _ => true | None => false end.

(** fs.readFileSync(p, 'utf8') *)
Definition readFileSync (disk : fs) (p : path) : ioError + string :=
  match lookupPath disk p with
  | Some (File content) => inr content
  | Some Directory => inl EISDIR
  | None => inl (notFound disk p)
  end.

(** fs.writeFileSync(p, content, 'utf8'): the file is created or replaced.
    The failures are those that the tree decides, all of them before the
    file is opened; a write that the system fails later, leaving the file
    cut short, is not in the model. *)
Definition writeFileSync (disk : fs) (p : path) (content : string) : ioError + fs :=
  match p with
  | [] => inl EISDIR
  | [d] =>
      match disk !! d with
      | Some (Folder _) => inl EISDIR
      | _ => inr (<[d := Plain content]> disk)
      end
  | [d; n] =>
      match disk !! d with
      | None => inl ENOENT
      | Some (Plain _) => inl ENOTDIR
      | Some (Folder entries) =>
          match entries !! n with
          | Some Directory => inl EISDIR
          | _ => inr (<[d := Folder (<[n := File content]> entries)]> disk)
          end
      end
  | _ => inl (notFound disk p)
  end.

(** A [Dirent]: its [name] and what [isFile()] answers. *)
Record dirent : Type := { name : string; isFile : bool }.

Definition direntOf (e : string * node) : dirent :=
  {| name := e.1; isFile := match e.2 with File _ => true | Directory => false end |}.

(** fs.readdirSync(p, { withFileTypes: true }); the wizard lists a
    sub-directory of [FORCE_APP_DIR] only. *)
Definition readdirSync (disk : fs) (p : path) : ioError + list dirent :=
  match p with
  | [d] =>
      match disk !! d with
      | Some (Folder entries) => inr (direntOf <$> map_to_list entries)
      | Some (Plain _) => inl ENOTDIR
      | None => inl ENOENT
      end
  | _ =>
      match lookupPath disk p with
      | Some (File _) => inl ENOTDIR
      | _ => inl (notFound disk p)
      end
  end.

(** ** The process: standard input, the disk and the console *)

Record world : Type := {
  stdin : list string;     (* the lines still to come *)
  disk : fs;
  console : list event     (* what was printed, oldest first *)
}.

(** How a computation ends: it returns, the process exits, an exception
    propagates, or it is left at a question with no line to come: it never
    returns (a process whose input has ended then ends there, with nothing
    more printed). *)
Inductive outcome (A : Type) : Type :=
| Done (a : A) (w : world)
| Exit (code : nat) (w : world)
| Throw (e : ioError) (w : world)
| Pending (w : world).
Arguments Done {A} a w.
Arguments Exit {A} code w.
Arguments Throw {A} e w.
Arguments Pending {A} w.

Definition M (A : Type) : Type := world -> outcome A.

#[global] Instance M_ret : MRet M := fun A a w => Done a w.
#[global] Instance M_bind : MBind M := fun A B f m w =>
  match m w with
  | Done a w' => f a w'
  | Exit code w' => Exit code w'
  | Throw e w' => Throw e w'
  | Pending w' => Pending w'
  end.

Definition emit (e : event) : M unit := fun w =>
  Done tt {| stdin := stdin w; disk := disk w; console := console w ++ [e] |}.

(** process.exit(code) *)
Definition exit {A : Type} (code : nat) : M A := fun w => Exit code w.

(** A call into [fs] that reads the disk. *)
Definition readDisk {A : Type} (f : fs -> A) : M A := fun w => Done (f (disk w)) w.

(** A call into [fs] that may throw. *)
Definition try {A : Type} (r : ioError + A) : M A := fun w =>
  match r with
  | inl e => Throw e w
  | inr a => Done a w
  end.

(** [for (const x of l) body(x)] *)
Fixpoint forOf {A : Type} (l : list A) (body : A -> M unit) : M unit :=
  match l with
  | [] => mret tt
  | x :: l' => body x ;; forOf l' body
  end.

(** [for (const x of l) acc = body(acc, x)], for a loop that fills [acc]. *)
Fixpoint forOfAcc {A S : Type} (l : list A) (body : S -> A -> M S) (acc : S) : M S :=
  match l with
  | [] => mret acc
  | x :: l' => acc' ← body acc x; forOfAcc l' body acc'
  end.

(** ** Readline (lines 105-125) *)

(** [await prompt(question)]: the question is printed and the next line of
    standard input is the answer. *)
Definition prompt (question : string) : M string := fun w =>
  let w' := {| stdin := stdin w; disk := disk w;
               console := console w ++ [RlQuestion question] |} in
  match stdin w with
  | [] => Pending w'
  | answer :: rest =>
      Done answer {| stdin := rest; disk := disk w'; console := console w' |}
  end.

(** The [while (true)] of promptWithValidation: every round takes one line
    of [input], so the loop is a recursion over the lines to come. *)
Fixpoint askUntilValid (variable : variable) (input : list string)
    (d : fs) (out : list event) : outcome string :=
  let suffix := if v_optional variable then " (press Enter to skip)" else "" in
  let out' := out ++ [RlQuestion (v_prompt variable +:+ suffix +:+ ": ")] in
  match input with
  | [] => Pending {| stdin := []; disk := d; console := out' |}
  | answer :: rest =>
      if v_validate variable answer
      then Done answer {| stdin := rest; disk := d; console := out' |}
      else askUntilValid variable rest d (out' ++ [LogError (v_error variable)])
  end.

Definition promptWithValidation (variable : variable) : M string :=
  emit (ConsoleLog (nl +:+ v_key variable));;
  emit (ConsoleLog (v_description variable));;
  ((fun w => askUntilValid variable (stdin w) (disk w) (console w)) : M string).

(** ** File operations (lines 131-165) *)

(** [replacements] is [Object.entries(replacements)]: the pairs of the object
    in the order of their insertion. *)
Definition applyReplacements (content : string)
    (replacements : list (string * string)) : string :=
  fold_left
    (fun result '(search, replace) => JS.replaceAll result search replace)
    replacements content.

Definition readFile (p : path) : M string := fun w =>
  try (readFileSync (disk w) p) w.

Definition writeFile (p : path) (content : string) : M unit := fun w =>
  match writeFileSync (disk w) p content with
  | inl e => Throw e w
  | inr disk' => Done tt {| stdin := stdin w; disk := disk'; console := console w |}
  end.

(** Copy template to new path with replacements applied. *)
Definition copyFromTemplate (templatePath newPath : path)
    (replacements : list (string * string)) : M unit :=
  content ← readFile templatePath;
  let newContent := applyReplacements content replacements in
  writeFile newPath newContent.

(** Returns true if any of the four metadata files for this MCP_NAME exist. *)
Definition instanceExists (d : fs) (mcpName : string) : bool :=
  existsb
    (fun file => existsSync d (join [dir file; newName file mcpName]))
    FILES.

(** [names.add(x)] on a [Set], kept as the list of its elements in the order
    of their insertion. *)
Definition setAdd (x : string) (names : list string) : list string :=
  if decide (x ∈ names) then names else names ++ [x].

(** [/^(.+)\.externalCredential-meta\.xml$/]: the group, and what follows it. *)
Definition instanceGroup : regex := Plus Dot.
Definition instanceSuffix : regex := Lit ".externalCredential-meta.xml".

(** The body of the loop over the directory entries. *)
Definition scanEntry (names : list string) (entry : dirent) : list string :=
  if negb (isFile entry) then names
  else
    match matchGroup1 instanceGroup instanceSuffix (name entry) with
    | Some g => if negb (String.eqb g TEMPLATE_NAME) then setAdd g names else names
    | None => names
    end.

(** Derive existing MCP instance names from externalCredentials dir.
    [Array.prototype.sort()] without a comparator orders strings by their
    code units. *)
Definition getExistingInstances (d : fs) : ioError + list string :=
  let dir := join ["externalCredentials"] in
  if negb (existsSync d dir) then inr []
  else
    match readdirSync d dir with
    | inl e => inl e
    | inr entries =>
        let names := fold_left scanEntry entries [] in
        inr (merge_sort String.le names)
    end.

(** ** Main (lines 171-281) *)

(** The object [values], from variable key to the answer given; a key that
    is absent reads as the empty string (after the collecting loop the four
    keys are all present). *)
Abbreviation valuesMap := (gmap string string).

(** Truthiness of a string. *)
Definition truthy (s : string) : bool := negb (String.eqb s "").

(** Lines 199-205. *)
Definition namespacePrefix (values : valuesMap) : string :=
  if truthy (values !!! "NAMESPACE") then (values !!! "NAMESPACE") +:+ "__" else "".

Definition replacements (values : valuesMap) : list (string * string) := [
  ("MCP_NAME", values !!! "MCP_NAME");
  ("MCP_SERVER_URL", values !!! "MCP_SERVER_URL");
  ("AUTH_PROVIDER_URL", values !!! "AUTH_PROVIDER_URL");
  ("NAMESPACE__", namespacePrefix values)
].

(** Lines 172-183: the banner and the acknowledgement. *)
Definition welcome : M unit :=
  emit ConsoleClear;;
  emit (LogHeader "MCP Metadata Setup Wizard");;
  emit (ConsoleLog "This wizard will configure the Salesforce metadata files for your");;
  emit (ConsoleLog ("Model Context Protocol (MCP) server integration." +:+ nl));;
  emit (ConsoleLog "You'll be prompted for the following values:");;
  forOf (imap pair VARIABLES) (fun '(i, v) =>
    let opt := if v_optional v then " (optional)" else "" in
    emit (ConsoleLog ("  " +:+ pretty (i + 1) +:+ ". " +:+ v_key v +:+ opt)));;
  _ ← prompt (nl +:+ "Press Enter to continue or Ctrl+C to cancel...");
  mret tt.

(** Lines 186-196: the existing instances are shown and the values asked. *)
Definition gatherValues : M valuesMap :=
  emit (LogHeader "Step 1: Configuration Values");;
  existing ← (fun w => try (getExistingInstances (disk w)) w);
  (if 0 <? length existing
   then emit (LogInfo ("Existing MCP instances: " +:+ String.concat ", " existing))
   else mret tt);;
  forOfAcc VARIABLES (fun values variable =>
    answer ← promptWithValidation variable;
    mret (<[v_key variable := answer]> values)) (∅ : valuesMap).

(** Lines 208-220: the summary. *)
Definition showSummary (values : valuesMap) : M unit :=
  emit (LogHeader "Step 2: Review Configuration");;
  emit (ConsoleLog ("Please review your configuration:" +:+ nl));;
  emit (ConsoleLog ("  MCP_NAME:          " +:+ values !!! "MCP_NAME"));;
  emit (ConsoleLog ("  MCP_SERVER_URL:    " +:+ values !!! "MCP_SERVER_URL"));;
  emit (ConsoleLog ("  AUTH_PROVIDER_URL: " +:+ values !!! "AUTH_PROVIDER_URL"));;
  emit (ConsoleLog ("  NAMESPACE:         " +:+
    (if truthy (values !!! "NAMESPACE") then values !!! "NAMESPACE" else "(none)")));;
  emit (ConsoleLog (nl +:+ "Files to be updated:"));;
  forOf FILES (fun file =>
    emit (ConsoleLog ("  " +:+ dir file +:+ "/" +:+ oldName file));;
    emit (ConsoleLog ("    -> " +:+ dir file +:+ "/" +:+
                      newName file (values !!! "MCP_NAME") +:+ nl))).

(** Lines 222-229: the review confirmation. *)
Definition confirmApply : M unit :=
  confirm ← prompt "Apply these changes? (y/n): ";
  if negb (String.eqb (JS.toLowerCase confirm) "y") then
    emit (ConsoleLog "");;
    emit (LogWarning "Setup cancelled. No changes were made.");;
    emit RlClose;;
    exit 0
  else mret tt.

(** Lines 232-240: check for existing instance and confirm overwrite. *)
Definition confirmOverwrite (values : valuesMap) : M unit :=
  found ← readDisk (fun d => instanceExists d (values !!! "MCP_NAME"));
  if found : bool then
    overwrite ← prompt ("Metadata for '" +:+ values !!! "MCP_NAME" +:+
                        "' already exists. Overwrite? (y/n): ");
    if negb (String.eqb (JS.toLowerCase overwrite) "y") then
      emit (ConsoleLog "");;
      emit (LogWarning "Setup cancelled. No changes were made.");;
      emit RlClose;;
      exit 0
    else mret tt
  else mret tt.

(** Lines 245-256: the body of the loop over [FILES]. *)
Definition applyRule (values : valuesMap) (repl : list (string * string))
    (file : fileRule) : M unit :=
  let templatePath := join [dir file; oldName file] in
  let newPath := join [dir file; newName file (values !!! "MCP_NAME")] in
  present ← readDisk (fun d => existsSync d templatePath);
  if negb present then
    emit (LogError ("Template not found: " +:+ oldName file))
  else
    copyFromTemplate templatePath newPath repl;;
    emit (LogSuccess ("Created: " +:+ newName file (values !!! "MCP_NAME"))).

(** Lines 243-256: apply changes. *)
Definition applyChanges (values : valuesMap) (repl : list (string * string)) : M unit :=
  emit (LogHeader "Step 3: Applying Changes");;
  forOf FILES (applyRule values repl).

(** Lines 259-274: the closing instructions. *)
Definition complete (values : valuesMap) : M unit :=
  emit (LogHeader "Setup Complete!");;
  emit (ConsoleLog ("Your MCP metadata files have been configured successfully." +:+ nl));;
  emit (ConsoleLog "Next Steps:");;
  emit (ConsoleLog "  1. Review the updated files in force-app/main/default/");;
  emit (ConsoleLog "  2. Deploy to your Salesforce org:");;
  emit (ConsoleLog "     sf project deploy start --source-dir force-app");;
  emit (ConsoleLog "  3. Configure the Client ID and Client Secret in Salesforce Setup:");;
  emit (ConsoleLog ("     Setup -> Named Credentials -> External Credentials -> " +:+
                    values !!! "MCP_NAME"));;
  emit (ConsoleLog "  4. Assign the permission set to users who need access:");;
  emit (ConsoleLog ("     " +:+ values !!! "MCP_NAME" +:+ "_Perm_Set"));;
  emit (ConsoleLog "");;
  emit (LogSuccess "Happy coding!");;
  emit (ConsoleLog "");;
  emit RlClose.

Definition main : M unit :=
  welcome;;
  values ← gatherValues;
  let repl := replacements values in
  showSummary values;;
  confirmApply;;
  confirmOverwrite values;;
  applyChanges values repl;;
  complete values.

(** Lines 277-281: [.catch((err) => { log.error(err.message); rl.close();
    process.exit(1); })]. *)
Definition catch (m : M unit) : M unit := fun w =>
  match m w with
  | Throw err w' =>
      (emit LogErrorMessage;; emit RlClose;; exit 1) w'
  | o => o
  end.

(** [main().catch(...)]: the process. *)
Definition runMain : M unit := catch main.

(** ** The vocabulary of the statements *)

(** The [validate] of the variable whose key is [k]. *)
Definition validator (k : string) : string -> bool :=
  match List.find (fun v => String.eqb (v_key v) k) VARIABLES with
  | Some v => v_validate v
  | None => fun _ => false
  end.

(** The code units of a string, and the number of a code unit. *)
Definition units (s : string) : list ascii := list_ascii_of_string s.
Definition code (c : ascii) : nat := nat_of_ascii c.

Definition isLetter (c : ascii) : Prop :=
  65 <= code c <= 90 \/ 97 <= code c <= 122.
Definition isDigit (c : ascii) : Prop := 48 <= code c <= 57.
Definition isUnderscore (c : ascii) : Prop := code c = 95.
Definition isLineTerminator (c : ascii) : Prop := code c = 10 \/ code c = 13.

(** A letter, then letters, digits and underscores only. *)
Definition identifierStyle (s : string) : Prop :=
  exists c rest,
    s = String c rest /\ isLetter c /\
    Forall (fun d => isLetter d \/ isDigit d \/ isUnderscore d) (units rest).

(** [http://] or [https://], then at least one more code unit. *)
Definition urlStyleAsStated (s : string) : Prop :=
  exists t, t <> "" /\ (s = "http://" +:+ t \/ s = "https://" +:+ t).

(** [http://] or [https://], then a code unit that is no line terminator. *)
Definition urlStyle (s : string) : Prop :=
  exists c rest,
    (s = "http://" +:+ String c rest \/ s = "https://" +:+ String c rest) /\
    ~ isLineTerminator c.

(** Every code unit of [s] is in the class [p]. *)
Fixpoint allUnits (p : ascii -> bool) (s : string) : bool :=
  match s with
  | EmptyString => true
  | String c s' => p c && allUnits p s'
  end.

(** The value that the replacement map gives a token, if any. *)
Definition tokenValue (repl : list (string * string)) (token : string) : option string :=
  snd <$> List.find (fun p => String.eqb (fst p) token) repl.

(** The values collected from four answers, as the collecting loop builds
    them. *)
Definition valuesOf (mcpName url auth namespace : string) : valuesMap :=
  <["NAMESPACE" := namespace]>
    (<["AUTH_PROVIDER_URL" := auth]>
      (<["MCP_SERVER_URL" := url]>
        (<["MCP_NAME" := mcpName]> ∅))).

(** Collected values for an instance name and a namespace. *)
Definition sampleValues (mcpName namespace : string) : valuesMap :=
  valuesOf mcpName "https://mcp.example.com/api"
    "https://auth.example.com/oauth/token" namespace.

(** [n] names an instance of the disk [d]: it is not the template, it is a
    non-empty name without line terminators, and the external-credential
    directory holds the regular file [n.externalCredential-meta.xml]. *)
Definition isInstance (d : fs) (n : string) : Prop :=
  n <> TEMPLATE_NAME /\ n <> "" /\
  Forall (fun c => ~ isLineTerminator c) (units n) /\
  exists content,
    lookupPath d ["externalCredentials"; n +:+ ".externalCredential-meta.xml"]
    = Some (File content).



(** A disk whose external-credential directory holds the two instances
    [foo] and [bar] beside the template. *)
Definition sampleDisk : fs :=
  {[ "externalCredentials" :=
       Folder
         {[ "foo.externalCredential-meta.xml" := File "<label>foo</label>";
            "bar.externalCredential-meta.xml" := File "<label>bar</label>";
            "template.externalCredential-meta.xml" := File "<label>MCP_NAME</label>" ]} ]}.

(** The world in which a computation ends. *)
Definition final {A : Type} (o : outcome A) : world :=
  match o with
  | Done _ w | Exit _ w | Throw _ w | Pending w => w
  end.

(** [m] leaves the disk as it is, however it ends. *)
Definition readOnly {A : Type} (m : M A) : Prop :=
  forall w, disk (final (m w)) = disk w.

(** [m] only adds to the console, and asks no question. *)
Definition isQuestion (e : event) : Prop := exists q, e = RlQuestion q.
Definition quiet {A : Type} (m : M A) : Prop :=
  forall w, exists evs,
    console (final (m w)) = console w ++ evs /\ Forall (fun e => ~ isQuestion e) evs.

(** From the input [i] on the disk [d], whatever the console shows, [m]
    returns [a], leaves the input [i'] and does not write the disk. *)
Definition runsTo {A : Type} (m : M A) (i : list string) (d : fs) (a : A)
    (i' : list string) : Prop :=
  forall c, exists out,
    m {| stdin := i; disk := d; console := c |} =
    Done a {| stdin := i'; disk := d; console := out |}.

(** The run up to the review confirmation (lines 172-220), and the run after
    it (lines 232-274). *)
Definition upToReview : M valuesMap :=
  welcome;;
  values ← gatherValues;
  showSummary values;;
  mret values.

Definition afterReview (values : valuesMap) : M unit :=
  confirmOverwrite values;;
  applyChanges values (replacements values);;
  complete values.

(** The two questions of the driver. *)
Definition reviewQuestion : event := RlQuestion "Apply these changes? (y/n): ".
Definition overwriteQuestion (mcpName : string) : event :=
  RlQuestion ("Metadata for '" +:+ mcpName +:+ "' already exists. Overwrite? (y/n): ").

(** What a cancelled run prints last. *)
Definition cancelled : list event :=
  [ConsoleLog ""; LogWarning "Setup cancelled. No changes were made."; RlClose].

(** The template and the destination of a rule. *)
Definition templatePathOf (file : fileRule) : path := join [dir file; oldName file].
Definition newPathOf (file : fileRule) (mcpName : string) : path :=
  join [dir file; newName file mcpName].

(** What the loop over [FILES] reports for a rule on the disk [d]. *)
Definition ruleReport (d : fs) (mcpName : string) (file : fileRule) : event :=
  if existsSync d (templatePathOf file)
  then LogSuccess ("Created: " +:+ newName file mcpName)
  else LogError ("Template not found: " +:+ oldName file).

(** The tree [d] gives the render of a rule no reason to throw: its
    template, when present, is a regular file, and its destination is no
    directory.  A render returns only where this holds; the system can still
    refuse it for a reason that the tree does not show. *)
Definition renderable (d : fs) (mcpName : string) (file : fileRule) : Prop :=
  match lookupPath d (templatePathOf file) with
  | None => True
  | Some Directory => False
  | Some (File _) => lookupPath d (newPathOf file mcpName) <> Some Directory
  end.

(** A run on [sampleDisk] from the start of the process: the
    acknowledgement, the four values, then [answers]. *)
Definition sampleRun (mcpName : string) (answers : list string) : world :=
  {| stdin := [""; mcpName; "https://mcp.example.com/api";
               "https://auth.example.com/oauth/token"; ""] ++ answers;
     disk := sampleDisk;
     console := [] |}.

(** The substitution as the specification words it: every occurrence of
    the non-empty [token] in [s], from left to right and without overlap, is
    replaced by [value] as it is. [skip] counts the code units of [s] that
    still belong to the occurrence just replaced. *)
Fixpoint replaceEvery (token value : string) (skip : nat) (s : string) : string :=
  match s with
  | EmptyString => EmptyString
  | String c s' =>
      match skip with
      | S k => replaceEvery token value k s'
      | 0 =>
          if String.prefix token s
          then value +:+ replaceEvery token value (JS.len token - 1) s'
          else String c (replaceEvery token value 0 s')
      end
  end.

Definition replaceLiteral (token value s : string) : string :=
  replaceEvery token value 0 s.

(** The pairs of the map applied one after the other, each literally. *)
Definition applyLiterally (content : string)
    (replacements : list (string * string)) : string :=
  fold_left (fun result '(token, value) => replaceLiteral token value result)
    replacements content.

(** [s] holds no dollar sign. *)
Definition noDollar (s : string) : Prop :=
  Forall (fun c => c <> "$"%char) (units s).

(** [m] changes the disk at paths of [P] only, however it ends. *)
Definition writesOnly {A : Type} (P : path -> Prop) (m : M A) : Prop :=
  forall w q, ~ P q -> lookupPath (disk (final (m w))) q = lookupPath (disk w) q.

(** The destinations of the four rules for an instance name. *)
Definition isDestination (mcpName : string) (q : path) : Prop :=
  exists file, file ∈ FILES /\ q = newPathOf file mcpName.

(** What a directory entry adds to the set of names of the scanner. *)
Definition adds (e : dirent) (n : string) : Prop :=
  isFile e = true /\
  matchGroup1 instanceGroup instanceSuffix (name e) = Some n /\
  n <> TEMPLATE_NAME.

(** One round of the loop of replaceAll over the match positions, on the
    pair of the result so far and the end of the last match; and its last
    step, which keeps what follows the last match. *)
Definition step (token s replaceValue : string) (st : string * nat) (p : nat)
    : string * nat :=
  (fst st +:+ JS.slice s (snd st) p +:+
     JS.getSubstitution token s p replaceValue,
   p + JS.len token).

Definition finish (s : string) (st : string * nat) : string :=
  if snd st <? JS.len s then fst st +:+ JS.drop (snd st) s else fst st.

(** The question of a variable, as promptWithValidation prints it, and
    what the collector prints for the answers [bad] that it rejects. *)
Definition questionOf (v : variable) : event :=
  RlQuestion
    (v_prompt v +:+ (if v_optional v then " (press Enter to skip)" else "") +:+ ": ").

Definition rejections (v : variable) (bad : list string) : list event :=
  concat ((fun _ => [questionOf v; LogError (v_error v)]) <$> bad).

(** What promptWithValidation prints before its first question. *)
Definition introduction (v : variable) : list event :=
  [ConsoleLog (nl +:+ v_key v); ConsoleLog (v_description v)].

(** [w'] is a world in which a computation is left at a question with no
    line to come, reached from [w]: the input is used up, the last thing
    printed is a question, and the disk is the one of [w]. *)
Definition starved (w w' : world) : Prop :=
  disk w' = disk w /\ stdin w' = [] /\
  exists out q, console w' = out ++ [RlQuestion q].

(** [m] talks to the user and reads the disk: it returns, throws or
    starves, on the same disk, and does not exit. *)
Definition interactive {A : Type} (m : M A) : Prop :=
  forall w,
    match m w with
    | Done _ w' => disk w' = disk w
    | Throw _ w' => disk w' = disk w
    | Pending w' => starved w w'
    | Exit _ _ => False
    end.

(** [m] neither exits nor reads the input. *)
Definition batch {A : Type} (m : M A) : Prop :=
  forall w,
    match m w with
    | Exit _ _ | Pending _ => False
    | Done _ _ | Throw _ _ => True
    end.

(** The console of [w'] shows that the run was completed. *)
Definition reportsCompletion (w' : world) : Prop :=
  exists out closing, console w' = out ++ LogHeader "Setup Complete!" :: closing.

(** [token] occurs in [s]. *)
Definition occursIn (token s : string) : Prop :=
  exists before after, s = before +:+ token +:+ after.

(** The world of a process on the disk [d] that has printed nothing and
    has no input left. *)
Definition idle (d : fs) : world := {| stdin := []; disk := d; console := [] |}.

(** The external-credential file of a name, as a path. *)
Definition credentialPath (n : string) : path :=
  join ["externalCredentials"; n +:+ ".externalCredential-meta.xml"].

(** * Properties *)

(** ** Strings *)

Module StrFacts.

Lemma str_app_nil_l (s : string) : "" +:+ s = s.
Proof. reflexivity. Qed.

Lemma str_app_cons (c : ascii) (s t : string) : String c s +:+ t = String c (s +:+ t).
Proof. reflexivity. Qed.

Lemma str_app_nil_r (s : string) : s +:+ "" = s.
Proof. induction s as [|c s IH]; [reflexivity|]. rewrite str_app_cons, IH. reflexivity. Qed.

Lemma str_app_assoc (s t u : string) : (s +:+ t) +:+ u = s +:+ (t +:+ u).
Proof.
  induction s as [|c s IH]; [reflexivity|].
  rewrite !str_app_cons, IH. reflexivity.
Qed.

Lemma str_app_eq_nil (s t : string) : s +:+ t = "" -> s = "" /\ t = "".
Proof. destruct s; [rewrite str_app_nil_l; auto|rewrite str_app_cons; discriminate]. Qed.

Lemma str_app_eq_cons (s t u : string) (c : ascii) :
  s +:+ t = String c u ->
  (s = "" /\ t = String c u) \/ (exists s', s = String c s' /\ u = s' +:+ t).
Proof.
  destruct s as [|d s]; [rewrite str_app_nil_l; auto|].
  rewrite str_app_cons. intros [= -> <-]. right. eauto.
Qed.

Lemma str_len_app (s t : string) : JS.len (s +:+ t) = JS.len s + JS.len t.
Proof.
  induction s as [|c s IH]; [reflexivity|].
  rewrite str_app_cons. simpl. rewrite IH. reflexivity.
Qed.

Lemma str_app_inv_tail (s1 s2 t : string) : s1 +:+ t = s2 +:+ t -> s1 = s2.
Proof.
  revert s2. induction s1 as [|c s1 IH]; intros [|d s2] H.
  - reflexivity.
  - apply (f_equal JS.len) in H. rewrite str_app_cons, str_app_nil_l in H.
    simpl in H. rewrite str_len_app in H. lia.
  - apply (f_equal JS.len) in H. rewrite str_app_cons, str_app_nil_l in H.
    simpl in H. rewrite str_len_app in H. lia.
  - rewrite !str_app_cons in H. injection H as -> H. f_equal. auto.
Qed.

End StrFacts.

(** ** Regular expressions: the derivative test decides [matches] *)

Module RegexFacts.
Import Regex StrFacts.

Lemma matches_Eps_inv (s : string) : matches Eps s -> s = "".
Proof. inversion 1; reflexivity. Qed.

Lemma matches_Class_inv (p : ascii -> bool) (s : string) :
  matches (Class p) s -> exists c, s = String c "" /\ p c = true.
Proof. inversion 1; subst; eauto. Qed.

Lemma matches_Seq_inv (r1 r2 : regex) (s : string) :
  matches (Seq r1 r2) s ->
  exists s1 s2, s = s1 +:+ s2 /\ matches r1 s1 /\ matches r2 s2.
Proof. inversion 1; subst; eauto. Qed.

Lemma matches_Alt_inv (r1 r2 : regex) (s : string) :
  matches (Alt r1 r2) s -> matches r1 s \/ matches r2 s.
Proof. inversion 1; subst; auto. Qed.

(** A non-empty match of [r*] starts with a non-empty match of [r]. *)
Lemma matches_Star_cons_inv (r : regex) (c : ascii) (s : string) :
  matches (Star r) (String c s) ->
  exists s1 s2, s = s1 +:+ s2 /\ matches r (String c s1) /\ matches (Star r) s2.
Proof.
  intros H. remember (Star r) as r' eqn:Er. remember (String c s) as t eqn:Et.
  revert Er Et. induction H as [| | | | | |r0 s1 s2 H1 _ H2 IH2]; try discriminate.
  intros [= ->] Et. destruct s1 as [|d s1].
  - rewrite str_app_nil_l in Et. auto.
  - rewrite str_app_cons in Et. injection Et as -> <-. eauto.
Qed.

Lemma nullable_matches (r : regex) : nullable r = true <-> matches r "".
Proof.
  induction r as [| |p|r1 IH1 r2 IH2|r1 IH1 r2 IH2|r IH]; simpl.
  - split; [discriminate|inversion 1].
  - split; [constructor|reflexivity].
  - split; [discriminate|inversion 1].
  - rewrite andb_true_iff, IH1, IH2. split.
    + intros [H1 H2]. change "" with ("" +:+ ""). constructor; assumption.
    + intros H. apply matches_Seq_inv in H as (s1 & s2 & E & H1 & H2).
      symmetry in E. apply str_app_eq_nil in E as [-> ->]. auto.
  - rewrite orb_true_iff, IH1, IH2. split.
    + intros [H|H]; [apply MAltL|apply MAltR]; assumption.
    + apply matches_Alt_inv.
  - split; [constructor|reflexivity].
Qed.

Lemma deriv_matches (r : regex) (c : ascii) (s : string) :
  matches (deriv c r) s <-> matches r (String c s).
Proof.
  revert s.
  induction r as [| |p|r1 IH1 r2 IH2|r1 IH1 r2 IH2|r IH]; intros s; simpl.
  - split; inversion 1.
  - split; inversion 1.
  - destruct (p c) eqn:Ep; split; intros H.
    + apply matches_Eps_inv in H as ->. constructor. assumption.
    + apply matches_Class_inv in H as (d & [= <- ->] & _). constructor.
    + inversion H.
    + apply matches_Class_inv in H as (d & [= <- ->] & Hd). congruence.
  - assert (Hseq : forall t, matches (Seq (deriv c r1) r2) t ->
                             matches (Seq r1 r2) (String c t)).
    { intros t H. apply matches_Seq_inv in H as (s1 & s2 & -> & H1 & H2).
      rewrite <- str_app_cons. constructor; [apply IH1|]; assumption. }
    split.
    + intros H. destruct (nullable r1) eqn:En; [|auto].
      apply matches_Alt_inv in H as [H|H]; [auto|].
      rewrite <- (str_app_nil_l (String c s)). constructor.
      * apply nullable_matches. assumption.
      * apply IH2. assumption.
    + intros H. apply matches_Seq_inv in H as (s1 & s2 & E & H1 & H2).
      symmetry in E. apply str_app_eq_cons in E as [[-> ->]|(s1' & -> & ->)].
      * apply nullable_matches in H1. rewrite H1.
        apply MAltR, IH2. assumption.
      * assert (matches (Seq (deriv c r1) r2) (s1' +:+ s2))
          by (constructor; [apply IH1|]; assumption).
        destruct (nullable r1); [apply MAltL|]; assumption.
  - split; intros H.
    + apply matches_Alt_inv in H as [H|H];
        [apply MAltL, IH1|apply MAltR, IH2]; assumption.
    + apply matches_Alt_inv in H as [H|H];
        [apply MAltL, IH1|apply MAltR, IH2]; assumption.
  - split; intros H.
    + apply matches_Seq_inv in H as (s1 & s2 & -> & H1 & H2).
      rewrite <- str_app_cons. constructor; [apply IH|]; assumption.
    + apply matches_Star_cons_inv in H as (s1 & s2 & -> & H1 & H2).
      constructor; [apply IH|]; assumption.
Qed.

Lemma testWhole_matches (r : regex) (s : string) :
  testWhole r s = true <-> matches r s.
Proof.
  revert r. induction s as [|c s IH]; intros r; simpl.
  - apply nullable_matches.
  - rewrite IH. apply deriv_matches.
Qed.

Lemma testPrefix_matches (r : regex) (s : string) :
  testPrefix r s = true <-> exists p q, s = p +:+ q /\ matches r p.
Proof.
  revert r. induction s as [|c s IH]; intros r; simpl.
  - rewrite orb_false_r, nullable_matches. split.
    + intros H. exists "", "". auto.
    + intros (p & q & E & H). symmetry in E.
      apply str_app_eq_nil in E as [-> _]. assumption.
  - rewrite orb_true_iff, nullable_matches, IH. split.
    + intros [H|(p & q & -> & H)].
      * exists "", (String c s). auto.
      * exists (String c p), q. split; [reflexivity|].
        apply deriv_matches. assumption.
    + intros (p & q & E & H). symmetry in E.
      apply str_app_eq_cons in E as [[-> _]|(p' & -> & ->)]; [auto|].
      right. exists p', q. split; [reflexivity|].
      apply deriv_matches. assumption.
Qed.

End RegexFacts.

(** ** The shape of what the three regular expressions match *)

Module ShapeFacts.
Import Regex StrFacts RegexFacts.

Lemma matches_Lit (t s : string) : matches (Lit t) s <-> s = t.
Proof.
  revert s. induction t as [|c t IH]; intros s; simpl.
  - split; [apply matches_Eps_inv|intros ->; constructor].
  - split.
    + intros H. apply matches_Seq_inv in H as (s1 & s2 & -> & H1 & H2).
      apply matches_Class_inv in H1 as (d & -> & Hd).
      apply Ascii.eqb_eq in Hd as ->. apply IH in H2 as ->. reflexivity.
    + intros ->. change (String c t) with (String c "" +:+ t).
      constructor; [|apply IH; reflexivity].
      constructor. apply Ascii.eqb_refl.
Qed.

Lemma matches_Star_Class (p : ascii -> bool) (s : string) :
  matches (Star (Class p)) s <-> allUnits p s = true.
Proof.
  induction s as [|c s IH]; simpl.
  - split; [reflexivity|constructor].
  - rewrite andb_true_iff, <- IH. split.
    + intros H. apply matches_Star_cons_inv in H as (s1 & s2 & -> & H1 & H2).
      apply matches_Class_inv in H1 as (d & [= <- ->] & Hd).
      rewrite str_app_nil_l. auto.
    + intros [Hc H]. change (String c s) with (String c "" +:+ s).
      constructor; [constructor|]; assumption.
Qed.

Lemma matches_Plus_Class (p : ascii -> bool) (s : string) :
  matches (Plus (Class p)) s <-> s <> "" /\ allUnits p s = true.
Proof.
  unfold Plus. split.
  - intros H. apply matches_Seq_inv in H as (s1 & s2 & -> & H1 & H2).
    apply matches_Class_inv in H1 as (d & -> & Hd).
    apply matches_Star_Class in H2. rewrite str_app_cons, str_app_nil_l. simpl.
    rewrite Hd, H2. split; [discriminate|reflexivity].
  - intros [Hne H]. destruct s as [|c s]; [contradiction|].
    simpl in H. apply andb_true_iff in H as [Hc H].
    change (String c s) with (String c "" +:+ s).
    constructor; [constructor; assumption|].
    apply matches_Star_Class. assumption.
Qed.

(** The numbers behind the character classes. *)
Lemma leb_code (a b : ascii) : Ascii.leb a b = true <-> code a <= code b.
Proof.
  unfold Ascii.leb, Ascii.compare, code, nat_of_ascii.
  destruct (N.compare_spec (N_of_ascii a) (N_of_ascii b)) as [E|E|E];
    split; intros H; try reflexivity; try discriminate; lia.
Qed.

Lemma range_code (lo hi c : ascii) :
  range lo hi c = true <-> code lo <= code c <= code hi.
Proof. unfold range. rewrite andb_true_iff, !leb_code. reflexivity. Qed.

Lemma code_inj (a b : ascii) : code a = code b -> a = b.
Proof.
  unfold code. intros H.
  rewrite <- (ascii_nat_embedding a), <- (ascii_nat_embedding b), H. reflexivity.
Qed.

Lemma eqb_code (a b : ascii) : Ascii.eqb a b = true <-> code a = code b.
Proof.
  rewrite Ascii.eqb_eq. split; [intros ->; reflexivity|apply code_inj].
Qed.

Lemma letter_spec (c : ascii) : letter c = true <-> isLetter c.
Proof.
  unfold letter, isLetter. rewrite orb_true_iff, !range_code.
  change (code "a") with 97. change (code "z") with 122.
  change (code "A") with 65. change (code "Z") with 90. lia.
Qed.

Lemma word_spec (c : ascii) :
  word c = true <-> isLetter c \/ isDigit c \/ isUnderscore c.
Proof.
  unfold word, isLetter, isDigit, isUnderscore.
  rewrite !orb_true_iff, !range_code, eqb_code.
  change (code "a") with 97. change (code "z") with 122.
  change (code "A") with 65. change (code "Z") with 90.
  change (code "0") with 48. change (code "9") with 57.
  change (code "_") with 95. lia.
Qed.

Lemma dot_spec (c : ascii) : dot c = true <-> ~ isLineTerminator c.
Proof.
  unfold dot, lineTerminator, isLineTerminator.
  rewrite negb_true_iff, orb_false_iff.
  rewrite <- !not_true_iff_false, !eqb_code.
  change (code "010") with 10. change (code "013") with 13. lia.
Qed.

Lemma allUnits_Forall (p : ascii -> bool) (P : ascii -> Prop) (s : string) :
  (forall c, p c = true <-> P c) ->
  allUnits p s = true <-> Forall P (units s).
Proof.
  intros HP. induction s as [|c s IH]; simpl.
  - split; [constructor|reflexivity].
  - rewrite andb_true_iff, IH, HP, Forall_cons. reflexivity.
Qed.

Lemma identifierRe_spec (s : string) :
  testWhole identifierRe s = true <-> identifierStyle s.
Proof.
  rewrite testWhole_matches. unfold identifierRe, identifierStyle. split.
  - intros H. apply matches_Seq_inv in H as (s1 & s2 & -> & H1 & H2).
    apply matches_Class_inv in H1 as (c & -> & Hc).
    exists c, s2. split; [reflexivity|]. split; [apply letter_spec; assumption|].
    apply (allUnits_Forall word); [apply word_spec|].
    apply matches_Star_Class. assumption.
  - intros (c & rest & -> & Hc & Hrest).
    change (String c rest) with (String c "" +:+ rest).
    constructor.
    + constructor. apply letter_spec. assumption.
    + apply matches_Star_Class.
      apply (allUnits_Forall word _ rest word_spec). assumption.
Qed.

Lemma matches_urlRe (p : string) :
  matches urlRe p <->
  exists t, (p = "http://" +:+ t \/ p = "https://" +:+ t) /\
            t <> "" /\ allUnits dot t = true.
Proof.
  unfold urlRe. split.
  - intros H.
    apply matches_Seq_inv in H as (s1 & s2 & -> & H1 & H).
    apply matches_Lit in H1 as ->.
    apply matches_Seq_inv in H as (x & s3 & -> & Hx & H).
    apply matches_Seq_inv in H as (s4 & t & -> & H4 & Ht).
    apply matches_Lit in H4 as ->.
    apply matches_Plus_Class in Ht as [Hne Ht].
    exists t. split; [|auto].
    apply matches_Alt_inv in Hx as [Hx|Hx].
    + apply matches_Class_inv in Hx as (d & -> & Hd).
      apply Ascii.eqb_eq in Hd as <-. right. reflexivity.
    + apply matches_Eps_inv in Hx as ->. left. reflexivity.
  - intros (t & Hp & Hne & Ht).
    assert (Htail : matches (Seq (Lit "://") (Plus Dot)) ("://" +:+ t)).
    { constructor; [apply matches_Lit; reflexivity|].
      apply matches_Plus_Class. auto. }
    destruct Hp as [-> | ->].
    + change ("http://" +:+ t) with ("http" +:+ ("" +:+ ("://" +:+ t))).
      constructor; [apply matches_Lit; reflexivity|].
      constructor; [apply MAltR; constructor|assumption].
    + change ("https://" +:+ t) with ("http" +:+ ("s" +:+ ("://" +:+ t))).
      constructor; [apply matches_Lit; reflexivity|].
      constructor; [apply MAltL; constructor; reflexivity|assumption].
Qed.

Lemma urlRe_spec (s : string) : testPrefix urlRe s = true <-> urlStyle s.
Proof.
  rewrite testPrefix_matches. unfold urlStyle. split.
  - intros (p & q & -> & H).
    apply matches_urlRe in H as (t & Hp & Hne & Ht).
    destruct t as [|c t]; [contradiction|].
    simpl in Ht. apply andb_true_iff in Ht as [Hc _].
    exists c, (t +:+ q). split; [|apply dot_spec; assumption].
    destruct Hp as [-> | ->]; [left|right]; reflexivity.
  - intros (c & rest & Hs & Hc).
    assert (Hm : forall pre, (pre = "http://" \/ pre = "https://") ->
                 matches urlRe (pre +:+ String c "")).
    { intros pre Hpre. apply matches_urlRe. exists (String c "").
      split; [destruct Hpre as [-> | ->]; auto|].
      split; [discriminate|]. simpl. rewrite andb_true_r.
      apply dot_spec. assumption. }
    destruct Hs as [-> | ->].
    + exists ("http://" +:+ String c ""), rest. split; [reflexivity|auto].
    + exists ("https://" +:+ String c ""), rest. split; [reflexivity|auto].
Qed.

End ShapeFacts.

(** ** Validation of the answers (lines 29, 36, 43, 50) *)

Import Regex StrFacts RegexFacts ShapeFacts.

(** C4. The predicate of MCP_NAME accepts a string exactly when it is a
    letter followed by letters, digits and underscores only, so the empty
    string is rejected; the predicate of NAMESPACE accepts exactly the empty
    string and those strings. [weather_api] and [mycompany] are accepted,
    [3weather] and [my-company] are rejected. *)
Theorem C4_identifier_validation (s : string) :
  (validator "MCP_NAME" s = true <-> identifierStyle s) /\
  (validator "NAMESPACE" s = true <-> s = "" \/ identifierStyle s) /\
  validator "MCP_NAME" "" = false /\
  validator "MCP_NAME" "weather_api" = true /\
  validator "MCP_NAME" "3weather" = false /\
  validator "NAMESPACE" "" = true /\
  validator "NAMESPACE" "mycompany" = true /\
  validator "NAMESPACE" "my-company" = false.
Proof.
  split; [|split; [|repeat split; reflexivity]].
  - change (validator "MCP_NAME" s) with (testWhole identifierRe s).
    apply identifierRe_spec.
  - change (validator "NAMESPACE" s)
      with (String.eqb s "" || testWhole identifierRe s).
    rewrite orb_true_iff, String.eqb_eq, identifierRe_spec. reflexivity.
Qed.

(** C5. The predicate of MCP_SERVER_URL and of AUTH_PROVIDER_URL is applied
    to a line read from the terminal, a string without line terminators: on
    every such string it accepts exactly when the string starts with
    [http://] or [https://] and has at least one code unit after the prefix.
    (On any string whatever it accepts exactly when the code unit after the
    prefix exists and is no line terminator.) [https://mcp.example.com/api]
    is accepted, [ftp://x] and [https://] are rejected. *)
Theorem C5_url_validation (s : string) :
  (validator "MCP_SERVER_URL" s = true <-> urlStyle s) /\
  (validator "AUTH_PROVIDER_URL" s = true <-> urlStyle s) /\
  (Forall (fun c => ~ isLineTerminator c) (units s) ->
   (validator "MCP_SERVER_URL" s = true <-> urlStyleAsStated s) /\
   (validator "AUTH_PROVIDER_URL" s = true <-> urlStyleAsStated s)) /\
  validator "MCP_SERVER_URL" "https://mcp.example.com/api" = true /\
  validator "MCP_SERVER_URL" "ftp://x" = false /\
  validator "MCP_SERVER_URL" "https://" = false.
Proof.
  change (validator "MCP_SERVER_URL") with (fun val => testPrefix urlRe val).
  change (validator "AUTH_PROVIDER_URL") with (fun val => testPrefix urlRe val).
  cbv beta.
  split; [apply urlRe_spec|]. split; [apply urlRe_spec|].
  split; [|repeat split; reflexivity].
  intros Hs.
  assert (H : urlStyle s <-> urlStyleAsStated s).
  { split.
    - intros (c & rest & Hc & _). exists (String c rest).
      split; [discriminate|assumption].
    - intros (t & Hne & Ht). destruct t as [|c rest]; [contradiction|].
      exists c, rest. split; [assumption|].
      assert (Hin : In c (units s)).
      { destruct Ht as [-> | ->]; simpl; tauto. }
      rewrite List.Forall_forall in Hs. apply Hs. assumption. }
  rewrite urlRe_spec. tauto.
Qed.

(** C5 at a line without line terminators. *)
Lemma C5_url_validation_witness :
  validator "MCP_SERVER_URL" "http://x" = true <-> urlStyleAsStated "http://x".
Proof.
  apply (C5_url_validation "http://x").
  repeat constructor; intros [H|H]; vm_compute in H; discriminate H.
Defined.

(** ** The replacement map (lines 199-205) *)

(** C2, as stated, fails: the replacement map has no entry for the
    namespace value itself; the token NAMESPACE is not a key of it. *)
Lemma C2_namespace_token_absent :
  tokenValue (replacements (sampleValues "weather_api" "acme")) "NAMESPACE"
  <> Some (sampleValues "weather_api" "acme" !!! "NAMESPACE").
Proof. vm_compute. discriminate. Qed.

(** C2, amended. The replacement map has four entries, in this order: the
    token MCP_NAME with the instance name, MCP_SERVER_URL with the server
    URL, AUTH_PROVIDER_URL with the auth URL, and NAMESPACE__ with the
    derived prefix, which is empty when the namespace is empty and the
    namespace followed by two underscores otherwise; the namespace value has
    no entry of its own. Namespace [acme] gives [acme__]. *)
Theorem C2_replacement_map (values : valuesMap) :
  replacements values =
    [ ("MCP_NAME", values !!! "MCP_NAME");
      ("MCP_SERVER_URL", values !!! "MCP_SERVER_URL");
      ("AUTH_PROVIDER_URL", values !!! "AUTH_PROVIDER_URL");
      ("NAMESPACE__",
       if decide (values !!! "NAMESPACE" = "") then ""
       else (values !!! "NAMESPACE") +:+ "__") ] /\
  tokenValue (replacements values) "MCP_NAME" = Some (values !!! "MCP_NAME") /\
  tokenValue (replacements values) "MCP_SERVER_URL"
    = Some (values !!! "MCP_SERVER_URL") /\
  tokenValue (replacements values) "AUTH_PROVIDER_URL"
    = Some (values !!! "AUTH_PROVIDER_URL") /\
  tokenValue (replacements values) "NAMESPACE__" = Some (namespacePrefix values) /\
  tokenValue (replacements values) "NAMESPACE" = None /\
  namespacePrefix (sampleValues "weather_api" "") = "" /\
  namespacePrefix (sampleValues "weather_api" "acme") = "acme__".
Proof.
  split; [|repeat split; reflexivity].
  unfold replacements, namespacePrefix, truthy.
  destruct (String.eqb_spec (values !!! "NAMESPACE") "") as [E|E]; simpl.
  - rewrite decide_True by assumption. reflexivity.
  - rewrite decide_False by assumption. reflexivity.
Qed.

(** ** The scanner (lines 155-165) *)

Module ScanFacts.
Import Regex StrFacts RegexFacts ShapeFacts.

Lemma group1From_sound (r1 r2 : regex) (pre s g : string) :
  group1From r1 r2 pre s = Some g ->
  exists a b, s = a +:+ b /\ g = pre +:+ a /\
              testWhole r1 g = true /\ testWhole r2 b = true.
Proof.
  revert pre g. induction s as [|c s IH]; intros pre g; simpl.
  - destruct (testWhole r1 pre) eqn:E1; [|discriminate].
    destruct (nullable r2) eqn:E2; [|discriminate]. intros [= <-].
    exists "", "". rewrite !str_app_nil_r. simpl. auto.
  - destruct (group1From r1 r2 (pre +:+ String c "") s) as [g'|] eqn:Eg.
    + intros [= <-]. apply IH in Eg. destruct Eg as (a & b & -> & Hg & H1 & H2).
      exists (String c a), b. rewrite str_app_assoc in Hg. auto.
    + destruct (testWhole r1 pre) eqn:E1; [|discriminate].
      destruct (testWhole (deriv c r2) s) eqn:E2; [|discriminate].
      intros [= <-]. exists "", (String c s). rewrite !str_app_nil_r. auto.
Qed.

Lemma group1From_complete (r1 r2 : regex) (pre s a b : string) :
  s = a +:+ b -> testWhole r1 (pre +:+ a) = true -> testWhole r2 b = true ->
  is_Some (group1From r1 r2 pre s).
Proof.
  revert pre a. induction s as [|c s IH]; intros pre a E H1 H2; simpl.
  - symmetry in E. apply str_app_eq_nil in E as [-> ->].
    rewrite str_app_nil_r in H1. simpl in H2. rewrite H1, H2. simpl. eauto.
  - symmetry in E. apply str_app_eq_cons in E as [[-> ->]|(a' & -> & ->)].
    + rewrite str_app_nil_r in H1. simpl in H2. rewrite H1, H2.
      destruct (group1From r1 r2 (pre +:+ String c "") s); simpl; eauto.
    + destruct (IH (pre +:+ String c "") a') as [g Hg];
        [reflexivity|rewrite str_app_assoc; assumption|assumption|].
      rewrite Hg. eauto.
Qed.

(** With a literal after the group, the group is what stands before it. *)
Lemma matchGroup1_Lit (r1 : regex) (t s g : string) :
  matchGroup1 r1 (Lit t) s = Some g <-> s = g +:+ t /\ testWhole r1 g = true.
Proof.
  unfold matchGroup1. split.
  - intros H. apply group1From_sound in H as (a & b & -> & -> & H1 & H2).
    apply testWhole_matches, matches_Lit in H2 as ->.
    rewrite str_app_nil_l in *. auto.
  - intros [-> H1].
    destruct (group1From_complete r1 (Lit t) "" (g +:+ t) g t) as [g' Hg];
      [reflexivity|assumption|apply testWhole_matches, matches_Lit; reflexivity|].
    rewrite Hg. f_equal.
    apply group1From_sound in Hg as (a & b & E & -> & _ & H2).
    apply testWhole_matches, matches_Lit in H2 as ->.
    rewrite str_app_nil_l. symmetry. apply (str_app_inv_tail _ _ t). assumption.
Qed.

Lemma instance_match (s g : string) :
  matchGroup1 instanceGroup instanceSuffix s = Some g <->
  s = g +:+ ".externalCredential-meta.xml" /\ g <> "" /\
  Forall (fun c => ~ isLineTerminator c) (units g).
Proof.
  unfold instanceGroup, instanceSuffix, Dot.
  rewrite matchGroup1_Lit, testWhole_matches, matches_Plus_Class.
  rewrite (allUnits_Forall dot _ g dot_spec). reflexivity.
Qed.

Lemma elem_of_setAdd (x y : string) (names : list string) :
  x ∈ setAdd y names <-> x = y \/ x ∈ names.
Proof.
  unfold setAdd. destruct (decide (y ∈ names)) as [Hy|Hy].
  - split; [auto|]. intros [-> | H]; assumption.
  - rewrite elem_of_app, list_elem_of_singleton. tauto.
Qed.

Lemma NoDup_setAdd (y : string) (names : list string) :
  NoDup names -> NoDup (setAdd y names).
Proof.
  intros H. unfold setAdd. destruct (decide (y ∈ names)) as [Hy|Hy]; [assumption|].
  apply NoDup_app. split; [assumption|]. split.
  - intros x Hx ->%list_elem_of_singleton. contradiction.
  - apply NoDup_singleton.
Qed.

Lemma elem_of_scanEntry (names : list string) (e : dirent) (n : string) :
  n ∈ scanEntry names e <-> n ∈ names \/ adds e n.
Proof.
  unfold scanEntry, adds. destruct (isFile e); simpl.
  - destruct (matchGroup1 instanceGroup instanceSuffix (name e)) as [g|].
    + destruct (String.eqb_spec g TEMPLATE_NAME) as [E|E]; simpl.
      * split; [auto|]. intros [H|(_ & [= ->] & H)]; [assumption|contradiction].
      * rewrite elem_of_setAdd. split.
        -- intros [-> | H]; auto.
        -- intros [H|(_ & [= ->] & _)]; auto.
    + split; [auto|]. intros [H|(_ & H & _)]; [assumption|discriminate].
  - split; [auto|]. intros [H|(H & _)]; [assumption|discriminate].
Qed.

Lemma NoDup_scanEntry (names : list string) (e : dirent) :
  NoDup names -> NoDup (scanEntry names e).
Proof.
  intros H. unfold scanEntry. destruct (isFile e); simpl; [|assumption].
  destruct (matchGroup1 _ _ _) as [g|]; [|assumption].
  destruct (negb _); [apply NoDup_setAdd|]; assumption.
Qed.

Lemma elem_of_scan (es : list dirent) (acc : list string) (n : string) :
  n ∈ fold_left scanEntry es acc <-> n ∈ acc \/ exists e, e ∈ es /\ adds e n.
Proof.
  revert acc. induction es as [|e es IH]; intros acc; simpl.
  - split; [auto|]. intros [H|(e & He & _)]; [assumption|].
    apply elem_of_nil in He. contradiction.
  - rewrite IH, elem_of_scanEntry. split.
    + intros [[H|H]|(e' & He' & H)]; [auto| |].
      * right. exists e. split; [left|assumption].
      * right. exists e'. split; [right|]; assumption.
    + intros [H|(e' & He' & H)]; [auto|].
      apply elem_of_cons in He' as [-> | He']; [auto|].
      right. eauto.
Qed.

Lemma NoDup_scan (es : list dirent) (acc : list string) :
  NoDup acc -> NoDup (fold_left scanEntry es acc).
Proof.
  revert acc. induction es as [|e es IH]; intros acc H; simpl; [assumption|].
  apply IH, NoDup_scanEntry, H.
Qed.

(** The entries that [readdirSync] lists are those of the directory. *)
Lemma elem_of_dirents (entries : gmap string node) (e : dirent) :
  e ∈ direntOf <$> map_to_list entries <->
  exists k v, entries !! k = Some v /\ e = direntOf (k, v).
Proof.
  rewrite list_elem_of_fmap. split.
  - intros ([k v] & -> & H). apply elem_of_map_to_list in H. eauto.
  - intros (k & v & H & ->). exists (k, v). split; [reflexivity|].
    apply elem_of_map_to_list. assumption.
Qed.

Lemma scanned_names (d : fs) (entries : gmap string node) (n : string) :
  d !! "externalCredentials" = Some (Folder entries) ->
  n ∈ fold_left scanEntry (direntOf <$> map_to_list entries) [] <-> isInstance d n.
Proof.
  intros Hd. rewrite elem_of_scan. unfold isInstance, lookupPath. rewrite Hd.
  split.
  - intros [H|(e & He & Hfile & Hm & Hn)]; [apply elem_of_nil in H; contradiction|].
    apply elem_of_dirents in He as (k & v & Hk & ->). simpl in *.
    apply instance_match in Hm as (-> & Hne & Hlt).
    destruct v as [content|]; [|discriminate]. eauto 6.
  - intros (Hn & Hne & Hlt & content & Hk). right.
    exists (direntOf (n +:+ ".externalCredential-meta.xml", File content)).
    split; [apply elem_of_dirents; eauto|].
    split; [reflexivity|]. split; [|assumption].
    apply instance_match. auto.
Qed.

(** What the scanner returns, when it returns. *)
Lemma getExistingInstances_spec (d : fs) (names : list string) :
  getExistingInstances d = inr names ->
  StronglySorted String.le names /\ NoDup names /\
  forall n, n ∈ names <-> isInstance d n.
Proof.
  unfold getExistingInstances, existsSync, join, readdirSync, lookupPath.
  destruct (d !! "externalCredentials") as [[content|entries]|] eqn:Hd; simpl;
    [discriminate| |]; intros [= <-].
  - split; [|split].
    + apply StronglySorted_merge_sort; apply _.
    + rewrite merge_sort_Permutation. apply NoDup_scan, NoDup_nil_2.
    + intros n. rewrite merge_sort_Permutation. apply scanned_names, Hd.
  - split; [constructor|]. split; [apply NoDup_nil_2|].
    intros n. split; [intros H; apply elem_of_nil in H; contradiction|].
    unfold isInstance, lookupPath. rewrite Hd.
    intros (_ & _ & _ & content & H). discriminate.
Qed.


End ScanFacts.

Import ScanFacts.




(** C10. Every name that the scanner returns differs from the template name
    and, given to the destination-name function of the external-credential
    rule, gives the name of a regular file that the scanned directory lists. *)
Theorem C10_scanner_round_trip (d : fs) (names : list string) (n : string) :
  getExistingInstances d = inr names -> n ∈ names ->
  n <> TEMPLATE_NAME /\
  exists rule entries,
    FILES !! 0 = Some rule /\
    readdirSync d (join [dir rule]) = inr entries /\
    {| name := newName rule n; isFile := true |} ∈ entries.
Proof.
  intros Hnames Hn.
  destruct (getExistingInstances_spec d names Hnames) as (_ & _ & Hspec).
  apply Hspec in Hn as (Hne & _ & _ & content & Hfile).
  split; [assumption|].
  unfold lookupPath in Hfile.
  destruct (d !! "externalCredentials") as [[c|entries]|] eqn:Hd; try discriminate.
  eexists _, _. split; [reflexivity|]. simpl. rewrite Hd.
  split; [reflexivity|].
  apply elem_of_dirents. exists (n +:+ ".externalCredential-meta.xml"), (File content).
  auto.
Qed.

(** C10 at the disk with foo, bar and the template, for the name foo. *)
Lemma C10_scanner_round_trip_witness :
  "foo" <> TEMPLATE_NAME /\
  exists rule entries,
    FILES !! 0 = Some rule /\
    readdirSync sampleDisk (join [dir rule]) = inr entries /\
    {| name := newName rule "foo"; isFile := true |} ∈ entries.
Proof.
  apply (C10_scanner_round_trip sampleDisk ["bar"; "foo"] "foo").
  - vm_compute. reflexivity.
  - apply elem_of_cons. right. apply elem_of_cons. left. reflexivity.
Defined.

(** ** The process: what the steps of the driver do to the disk and the console *)

Module ProcessFacts.

Lemma bind_unfold {A B : Type} (m : M A) (f : A -> M B) (w : world) :
  (m ≫= f) w =
  match m w with
  | Done a w' => f a w'
  | Exit code w' => Exit code w'
  | Throw e w' => Throw e w'
  | Pending w' => Pending w'
  end.
Proof. reflexivity. Qed.

Lemma bind_Done {A B : Type} (m : M A) (f : A -> M B) (w w' : world) (a : A) :
  m w = Done a w' -> (m ≫= f) w = f a w'.
Proof. intros H. rewrite bind_unfold, H. reflexivity. Qed.

(** *** Steps that do not write the disk *)

Lemma readOnly_ret {A : Type} (a : A) : readOnly (mret a : M A).
Proof. intros w. reflexivity. Qed.

Lemma readOnly_bind {A B : Type} (m : M A) (f : A -> M B) :
  readOnly m -> (forall a, readOnly (f a)) -> readOnly (m ≫= f).
Proof.
  intros Hm Hf w. rewrite bind_unfold. specialize (Hm w).
  destruct (m w) as [a w'| | |]; simpl in *; try assumption.
  rewrite Hf. assumption.
Qed.

Lemma readOnly_emit (e : event) : readOnly (emit e).
Proof. intros w. reflexivity. Qed.

Lemma readOnly_exit {A : Type} (code : nat) : readOnly (exit code : M A).
Proof. intros w. reflexivity. Qed.

Lemma readOnly_readDisk {A : Type} (f : fs -> A) : readOnly (readDisk f).
Proof. intros w. reflexivity. Qed.

Lemma readOnly_try {A : Type} (f : fs -> ioError + A) :
  readOnly (fun w => try (f (disk w)) w).
Proof. intros w. unfold try. destruct (f (disk w)); reflexivity. Qed.

Lemma readOnly_prompt (question : string) : readOnly (prompt question).
Proof. intros w. unfold prompt. destruct (stdin w); reflexivity. Qed.

Lemma askUntilValid_disk (v : variable) (input : list string) (d : fs)
    (out : list event) :
  disk (final (askUntilValid v input d out)) = d.
Proof.
  revert out. induction input as [|answer rest IH]; intros out; simpl.
  - reflexivity.
  - destruct (v_validate v answer); [reflexivity|apply IH].
Qed.

Lemma readOnly_promptWithValidation (v : variable) :
  readOnly (promptWithValidation v).
Proof.
  unfold promptWithValidation.
  repeat (apply readOnly_bind; [apply readOnly_emit|intros _]).
  intros w. apply askUntilValid_disk.
Qed.

Lemma readOnly_forOf {A : Type} (l : list A) (body : A -> M unit) :
  (forall x, readOnly (body x)) -> readOnly (forOf l body).
Proof.
  intros Hbody. induction l as [|x l IH]; simpl.
  - apply readOnly_ret.
  - apply readOnly_bind; [apply Hbody|intros _; apply IH].
Qed.

Lemma readOnly_forOfAcc {A S : Type} (l : list A) (body : S -> A -> M S) (acc : S) :
  (forall s x, readOnly (body s x)) -> readOnly (forOfAcc l body acc).
Proof.
  intros Hbody. revert acc. induction l as [|x l IH]; intros acc; simpl.
  - apply readOnly_ret.
  - apply readOnly_bind; [apply Hbody|intros acc'; apply IH].
Qed.

Lemma readOnly_welcome : readOnly welcome.
Proof.
  unfold welcome.
  repeat (apply readOnly_bind; [apply readOnly_emit|intros _]).
  apply readOnly_bind; [apply readOnly_prompt|intros _; apply readOnly_ret].
Qed.

Lemma readOnly_gatherValues : readOnly gatherValues.
Proof.
  unfold gatherValues.
  apply readOnly_bind; [apply readOnly_emit|intros _].
  apply readOnly_bind; [apply readOnly_try|intros existing].
  apply readOnly_bind.
  - destruct (0 <? length existing); [apply readOnly_emit|apply readOnly_ret].
  - intros _. apply readOnly_forOfAcc. intros values v.
    apply readOnly_bind; [apply readOnly_promptWithValidation|].
    intros answer. apply readOnly_ret.
Qed.

Lemma readOnly_showSummary (values : valuesMap) : readOnly (showSummary values).
Proof.
  unfold showSummary.
  repeat (apply readOnly_bind; [apply readOnly_emit|intros _]).
  apply readOnly_ret.
Qed.

Lemma readOnly_upToReview : readOnly upToReview.
Proof.
  unfold upToReview.
  apply readOnly_bind; [apply readOnly_welcome|intros _].
  apply readOnly_bind; [apply readOnly_gatherValues|intros values].
  apply readOnly_bind; [apply readOnly_showSummary|intros _; apply readOnly_ret].
Qed.

(** [main] is the run up to the review, the review confirmation, and the
    run after it. *)
Lemma main_split (w : world) :
  main w = (values ← upToReview; confirmApply;; afterReview values) w.
Proof.
  unfold main, upToReview, afterReview. rewrite !bind_unfold.
  destruct (welcome w) as [[] w1| | |]; [|reflexivity..].
  rewrite !bind_unfold.
  destruct (gatherValues w1) as [values w2| | |]; [|reflexivity..].
  rewrite !bind_unfold.
  destruct (showSummary values w2) as [[] w3| | |]; reflexivity.
Qed.

(** *** Lower case *)

Lemma lowerUnit_y (c : ascii) :
  JS.lowerUnit c = "y"%char -> c = "y"%char \/ c = "Y"%char.
Proof.
  destruct c as [[] [] [] [] [] [] [] []]; vm_compute; intros H;
    first [discriminate H | left; reflexivity | right; reflexivity].
Qed.

Lemma toLowerCase_y (answer : string) :
  JS.toLowerCase answer = "y" <-> answer = "y" \/ answer = "Y".
Proof.
  split.
  - destruct answer as [|c [|d rest]]; simpl; try discriminate.
    intros [= H]. apply lowerUnit_y in H as [-> | ->]; auto.
  - intros [-> | ->]; reflexivity.
Qed.

Lemma declined (answer : string) :
  answer <> "y" -> answer <> "Y" ->
  negb (String.eqb (JS.toLowerCase answer) "y") = true.
Proof.
  intros H1 H2. apply negb_true_iff, String.eqb_neq.
  rewrite toLowerCase_y. tauto.
Qed.

Lemma accepted (answer : string) :
  answer = "y" \/ answer = "Y" ->
  negb (String.eqb (JS.toLowerCase answer) "y") = false.
Proof. intros [-> | ->]; reflexivity. Qed.

(** *** The questions *)

Lemma prompt_answer (question answer : string) (rest : list string) (w : world) :
  stdin w = answer :: rest ->
  prompt question w =
    Done answer {| stdin := rest; disk := disk w;
                   console := console w ++ [RlQuestion question] |}.
Proof. intros H. unfold prompt. rewrite H. reflexivity. Qed.

Lemma prompt_pending (question : string) (w : world) :
  stdin w = [] ->
  prompt question w =
    Pending {| stdin := []; disk := disk w;
               console := console w ++ [RlQuestion question] |}.
Proof. intros H. unfold prompt. rewrite H. reflexivity. Qed.

Lemma confirmApply_declined (w : world) (answer : string) (rest : list string) :
  stdin w = answer :: rest -> answer <> "y" -> answer <> "Y" ->
  confirmApply w =
    Exit 0 {| stdin := rest; disk := disk w;
              console := console w ++ reviewQuestion :: cancelled |}.
Proof.
  intros Hin H1 H2. unfold confirmApply.
  rewrite (bind_Done _ _ _ _ _ (prompt_answer _ _ _ _ Hin)).
  rewrite (declined answer H1 H2). cbv [mbind M_bind emit exit]. simpl.
  rewrite <- !List.app_assoc. reflexivity.
Qed.

Lemma confirmApply_accepted (w : world) (answer : string) (rest : list string) :
  stdin w = answer :: rest -> answer = "y" \/ answer = "Y" ->
  confirmApply w =
    Done tt {| stdin := rest; disk := disk w;
               console := console w ++ [reviewQuestion] |}.
Proof.
  intros Hin Hy. unfold confirmApply.
  rewrite (bind_Done _ _ _ _ _ (prompt_answer _ _ _ _ Hin)).
  rewrite (accepted answer Hy). reflexivity.
Qed.

Lemma confirmOverwrite_absent (values : valuesMap) (w : world) :
  instanceExists (disk w) (values !!! "MCP_NAME") = false ->
  confirmOverwrite values w = Done tt w.
Proof.
  intros H. unfold confirmOverwrite, readDisk. rewrite bind_unfold, H. reflexivity.
Qed.

Lemma confirmOverwrite_pending (values : valuesMap) (w : world) :
  instanceExists (disk w) (values !!! "MCP_NAME") = true -> stdin w = [] ->
  confirmOverwrite values w =
    Pending {| stdin := []; disk := disk w;
               console := console w ++ [overwriteQuestion (values !!! "MCP_NAME")] |}.
Proof.
  intros H Hin. unfold confirmOverwrite, readDisk. rewrite bind_unfold, H.
  rewrite bind_unfold, (prompt_pending _ _ Hin). reflexivity.
Qed.

Lemma confirmOverwrite_declined (values : valuesMap) (w : world)
    (answer : string) (rest : list string) :
  instanceExists (disk w) (values !!! "MCP_NAME") = true ->
  stdin w = answer :: rest -> answer <> "y" -> answer <> "Y" ->
  confirmOverwrite values w =
    Exit 0 {| stdin := rest; disk := disk w;
              console := console w ++
                overwriteQuestion (values !!! "MCP_NAME") :: cancelled |}.
Proof.
  intros H Hin H1 H2. unfold confirmOverwrite, readDisk. rewrite bind_unfold, H.
  rewrite (bind_Done _ _ _ _ _ (prompt_answer _ _ _ _ Hin)).
  rewrite (declined answer H1 H2). cbv [mbind M_bind emit exit]. simpl.
  rewrite <- !List.app_assoc. reflexivity.
Qed.

Lemma confirmOverwrite_accepted (values : valuesMap) (w : world)
    (answer : string) (rest : list string) :
  instanceExists (disk w) (values !!! "MCP_NAME") = true ->
  stdin w = answer :: rest -> answer = "y" \/ answer = "Y" ->
  confirmOverwrite values w =
    Done tt {| stdin := rest; disk := disk w;
               console := console w ++ [overwriteQuestion (values !!! "MCP_NAME")] |}.
Proof.
  intros H Hin Hy. unfold confirmOverwrite, readDisk. rewrite bind_unfold, H.
  rewrite (bind_Done _ _ _ _ _ (prompt_answer _ _ _ _ Hin)).
  rewrite (accepted answer Hy). reflexivity.
Qed.

(** *** Steps that ask no question *)

Lemma quiet_ret {A : Type} (a : A) : quiet (mret a : M A).
Proof. intros w. exists []. split; [symmetry; apply app_nil_r|constructor]. Qed.

Lemma quiet_bind {A B : Type} (m : M A) (f : A -> M B) :
  quiet m -> (forall a, quiet (f a)) -> quiet (m ≫= f).
Proof.
  intros Hm Hf w. rewrite bind_unfold. destruct (Hm w) as (evs1 & E1 & F1).
  destruct (m w) as [a w'| | |]; simpl in *; eauto.
  destruct (Hf a w') as (evs2 & E2 & F2). exists (evs1 ++ evs2).
  rewrite E2, E1, List.app_assoc. split; [reflexivity|].
  apply Forall_app. auto.
Qed.

Lemma quiet_emit (e : event) : ~ isQuestion e -> quiet (emit e).
Proof. intros He w. exists [e]. split; [reflexivity|]. constructor; [assumption|constructor]. Qed.

Lemma quiet_exit {A : Type} (code : nat) : quiet (exit code : M A).
Proof. intros w. exists []. split; [symmetry; apply app_nil_r|constructor]. Qed.

Lemma quiet_readDisk {A : Type} (f : fs -> A) : quiet (readDisk f).
Proof. intros w. exists []. split; [symmetry; apply app_nil_r|constructor]. Qed.

Lemma quiet_readFile (p : path) : quiet (readFile p).
Proof.
  intros w. exists []. split; [|constructor]. unfold readFile, try.
  destruct (readFileSync (disk w) p); symmetry; apply app_nil_r.
Qed.

Lemma quiet_writeFile (p : path) (content : string) : quiet (writeFile p content).
Proof.
  intros w. exists []. split; [|constructor]. unfold writeFile.
  destruct (writeFileSync (disk w) p content); symmetry; apply app_nil_r.
Qed.

Lemma quiet_copyFromTemplate (templatePath newPath : path)
    (repl : list (string * string)) :
  quiet (copyFromTemplate templatePath newPath repl).
Proof.
  unfold copyFromTemplate. apply quiet_bind; [apply quiet_readFile|].
  intros content. apply quiet_writeFile.
Qed.

Lemma quiet_forOf {A : Type} (l : list A) (body : A -> M unit) :
  (forall x, quiet (body x)) -> quiet (forOf l body).
Proof.
  intros Hbody. induction l as [|x l IH]; simpl.
  - apply quiet_ret.
  - apply quiet_bind; [apply Hbody|intros _; apply IH].
Qed.

Lemma not_question_error (msg : string) : ~ isQuestion (LogError msg).
Proof. intros [q H]. discriminate. Qed.
Lemma not_question_success (msg : string) : ~ isQuestion (LogSuccess msg).
Proof. intros [q H]. discriminate. Qed.
Lemma not_question_header (msg : string) : ~ isQuestion (LogHeader msg).
Proof. intros [q H]. discriminate. Qed.
Lemma not_question_log (msg : string) : ~ isQuestion (ConsoleLog msg).
Proof. intros [q H]. discriminate. Qed.
Lemma not_question_close : ~ isQuestion RlClose.
Proof. intros [q H]. discriminate. Qed.

Create HintDb quietdb.
#[local] Hint Resolve not_question_error not_question_success not_question_header
  not_question_log not_question_close : quietdb.

Lemma quiet_applyRule (values : valuesMap) (repl : list (string * string))
    (file : fileRule) :
  quiet (applyRule values repl file).
Proof.
  unfold applyRule. apply quiet_bind; [apply quiet_readDisk|].
  intros present. destruct present; simpl.
  - apply quiet_bind; [apply quiet_copyFromTemplate|].
    intros _. apply quiet_emit. auto with quietdb.
  - apply quiet_emit. auto with quietdb.
Qed.

Lemma quiet_complete (values : valuesMap) : quiet (complete values).
Proof.
  unfold complete.
  repeat (apply quiet_bind; [apply quiet_emit; auto with quietdb|intros _]).
  apply quiet_emit. auto with quietdb.
Qed.

Lemma quiet_catch (m : M unit) : quiet m -> quiet (catch m).
Proof.
  intros Hm w. unfold catch. destruct (Hm w) as (evs & E & F).
  destruct (m w) as [a w'|code w'|err w'|w']; simpl in *; eauto.
  exists (evs ++ [LogErrorMessage; RlClose]).
  rewrite E, <- !List.app_assoc. split; [reflexivity|].
  apply Forall_app. split; [assumption|].
  repeat constructor; auto with quietdb. intros [q Hq]. discriminate.
Qed.

(** *** Runs on valid answers *)

Lemma runsTo_ret {A : Type} (a : A) (i : list string) (d : fs) :
  runsTo (mret a : M A) i d a i.
Proof. intros c. exists c. reflexivity. Qed.

Lemma runsTo_bind {A B : Type} (m : M A) (f : A -> M B) (i i' i'' : list string)
    (d : fs) (a : A) (b : B) :
  runsTo m i d a i' -> runsTo (f a) i' d b i'' -> runsTo (m ≫= f) i d b i''.
Proof.
  intros Hm Hf c. destruct (Hm c) as [out1 E1]. destruct (Hf out1) as [out2 E2].
  exists out2. rewrite (bind_Done _ _ _ _ _ E1). exact E2.
Qed.

Lemma runsTo_emit (e : event) (i : list string) (d : fs) :
  runsTo (emit e) i d tt i.
Proof. intros c. eexists. reflexivity. Qed.

Lemma runsTo_prompt (question answer : string) (i : list string) (d : fs) :
  runsTo (prompt question) (answer :: i) d answer i.
Proof. intros c. eexists. reflexivity. Qed.

Lemma runsTo_forOf {A : Type} (l : list A) (body : A -> M unit)
    (i : list string) (d : fs) :
  (forall x, runsTo (body x) i d tt i) -> runsTo (forOf l body) i d tt i.
Proof.
  intros Hbody. induction l as [|x l IH]; simpl.
  - apply runsTo_ret.
  - apply (runsTo_bind _ _ i i i d tt tt); [apply Hbody|apply IH].
Qed.

(** A valid answer is returned at once. *)
Lemma runsTo_promptWithValidation (v : variable) (answer : string)
    (i : list string) (d : fs) :
  v_validate v answer = true ->
  runsTo (promptWithValidation v) (answer :: i) d answer i.
Proof.
  intros Hv. unfold promptWithValidation.
  apply (runsTo_bind _ _ _ (answer :: i) _ d tt); [apply runsTo_emit|].
  apply (runsTo_bind _ _ _ (answer :: i) _ d tt); [apply runsTo_emit|].
  intros c. eexists. simpl. rewrite Hv. reflexivity.
Qed.

Lemma runsTo_welcome (ack : string) (i : list string) (d : fs) :
  runsTo welcome (ack :: i) d tt i.
Proof.
  unfold welcome.
  do 5 (apply (runsTo_bind _ _ _ (ack :: i) _ d tt); [apply runsTo_emit|]).
  apply (runsTo_bind _ _ _ (ack :: i) _ d tt).
  - apply runsTo_forOf. intros [n v]. apply runsTo_emit.
  - apply (runsTo_bind _ _ _ i _ d ack); [apply runsTo_prompt|apply runsTo_ret].
Qed.

Lemma runsTo_showSummary (values : valuesMap) (i : list string) (d : fs) :
  runsTo (showSummary values) i d tt i.
Proof.
  unfold showSummary.
  do 7 (apply (runsTo_bind _ _ _ i _ d tt); [apply runsTo_emit|]).
  apply runsTo_forOf. intros file.
  apply (runsTo_bind _ _ _ i _ d tt); apply runsTo_emit.
Qed.

Lemma runsTo_gatherValues (mcpName url auth namespace : string)
    (i : list string) (d : fs) (names : list string) :
  getExistingInstances d = inr names ->
  validator "MCP_NAME" mcpName = true ->
  validator "MCP_SERVER_URL" url = true ->
  validator "AUTH_PROVIDER_URL" auth = true ->
  validator "NAMESPACE" namespace = true ->
  runsTo gatherValues (mcpName :: url :: auth :: namespace :: i) d
    (valuesOf mcpName url auth namespace) i.
Proof.
  intros E H1 H2 H3 H4. unfold gatherValues.
  set (i0 := mcpName :: url :: auth :: namespace :: i).
  apply (runsTo_bind _ _ _ i0 _ d tt); [apply runsTo_emit|].
  apply (runsTo_bind _ _ _ i0 _ d names).
  { intros c. exists c. unfold try. simpl. rewrite E. reflexivity. }
  apply (runsTo_bind _ _ _ i0 _ d tt).
  { destruct (0 <? length names); [apply runsTo_emit|apply runsTo_ret]. }
  unfold VARIABLES. cbn [forOfAcc].
  apply (runsTo_bind _ _ _ (url :: auth :: namespace :: i) _ d
           (<["MCP_NAME" := mcpName]> ∅)).
  { apply (runsTo_bind _ _ _ (url :: auth :: namespace :: i) _ d mcpName);
      [apply runsTo_promptWithValidation; exact H1|apply runsTo_ret]. }
  apply (runsTo_bind _ _ _ (auth :: namespace :: i) _ d
           (<["MCP_SERVER_URL" := url]> (<["MCP_NAME" := mcpName]> ∅))).
  { apply (runsTo_bind _ _ _ (auth :: namespace :: i) _ d url);
      [apply runsTo_promptWithValidation; exact H2|apply runsTo_ret]. }
  apply (runsTo_bind _ _ _ (namespace :: i) _ d
           (<["AUTH_PROVIDER_URL" := auth]>
              (<["MCP_SERVER_URL" := url]> (<["MCP_NAME" := mcpName]> ∅)))).
  { apply (runsTo_bind _ _ _ (namespace :: i) _ d auth);
      [apply runsTo_promptWithValidation; exact H3|apply runsTo_ret]. }
  apply (runsTo_bind _ _ _ i _ d (valuesOf mcpName url auth namespace)).
  { apply (runsTo_bind _ _ _ i _ d namespace);
      [apply runsTo_promptWithValidation; exact H4|apply runsTo_ret]. }
  apply runsTo_ret.
Qed.

(** When the scanner returns and the first answer to every question is
    valid, the run reaches the review confirmation with the four answers as
    the values. *)
Lemma runsTo_upToReview (ack mcpName url auth namespace : string)
    (i : list string) (d : fs) (names : list string) :
  getExistingInstances d = inr names ->
  validator "MCP_NAME" mcpName = true ->
  validator "MCP_SERVER_URL" url = true ->
  validator "AUTH_PROVIDER_URL" auth = true ->
  validator "NAMESPACE" namespace = true ->
  runsTo upToReview (ack :: mcpName :: url :: auth :: namespace :: i) d
    (valuesOf mcpName url auth namespace) i.
Proof.
  intros E H1 H2 H3 H4. unfold upToReview.
  apply (runsTo_bind _ _ _ (mcpName :: url :: auth :: namespace :: i) _ d tt);
    [apply runsTo_welcome|].
  apply (runsTo_bind _ _ _ i _ d (valuesOf mcpName url auth namespace));
    [apply (runsTo_gatherValues _ _ _ _ _ _ names); assumption|].
  apply (runsTo_bind _ _ _ i _ d tt); [apply runsTo_showSummary|apply runsTo_ret].
Qed.

(** The sample run reaches the review confirmation. *)
Lemma sampleRun_review (mcpName : string) (answers : list string) :
  validator "MCP_NAME" mcpName = true ->
  exists out,
    upToReview (sampleRun mcpName answers) =
    Done (sampleValues mcpName "")
      {| stdin := answers; disk := sampleDisk; console := out |}.
Proof.
  intros Hname.
  apply (runsTo_upToReview "" mcpName "https://mcp.example.com/api"
           "https://auth.example.com/oauth/token" "" answers sampleDisk
           ["bar"; "foo"]); [vm_compute; reflexivity|exact Hname|reflexivity..].
Qed.

End ProcessFacts.

(** ** The two confirmations (lines 222-240) *)

Import ProcessFacts.

(** C7. When the answer to the review confirmation is neither [y] nor [Y],
    the run prints the warning and exits with status 0, and the disk is the
    one the run started with: no file was created or modified. *)
Theorem C7_review_cancel (w w1 : world) (values : valuesMap)
    (answer : string) (rest : list string) :
  upToReview w = Done values w1 ->
  stdin w1 = answer :: rest ->
  answer <> "y" -> answer <> "Y" ->
  runMain w =
    Exit 0 {| stdin := rest; disk := disk w;
              console := console w1 ++ reviewQuestion :: cancelled |}.
Proof.
  intros Hrun Hin H1 H2.
  pose proof (readOnly_upToReview w) as Hdisk. rewrite Hrun in Hdisk. simpl in Hdisk.
  unfold runMain, catch. rewrite main_split, (bind_Done _ _ _ _ _ Hrun).
  rewrite bind_unfold, (confirmApply_declined w1 answer rest Hin H1 H2).
  rewrite Hdisk. reflexivity.
Qed.

(** C7 at a run that answers [n] to the review confirmation. *)
Lemma C7_review_cancel_witness :
  exists out,
    runMain (sampleRun "weather_api" ["n"]) =
    Exit 0 {| stdin := []; disk := sampleDisk; console := out |}.
Proof.
  destruct (sampleRun_review "weather_api" ["n"] eq_refl) as [out E].
  exists (out ++ reviewQuestion :: cancelled).
  apply (C7_review_cancel (sampleRun "weather_api" ["n"])
           {| stdin := ["n"]; disk := sampleDisk; console := out |}
           (sampleValues "weather_api" "") "n" [] E eq_refl); discriminate.
Defined.

(** After an accepted review, [main] goes on with the overwrite check. *)
Lemma main_after_review (w w1 : world) (values : valuesMap)
    (confirm : string) (rest : list string) :
  upToReview w = Done values w1 ->
  stdin w1 = confirm :: rest ->
  confirm = "y" \/ confirm = "Y" ->
  main w =
    afterReview values
      {| stdin := rest; disk := disk w; console := console w1 ++ [reviewQuestion] |}.
Proof.
  intros Hrun Hin Hy.
  pose proof (readOnly_upToReview w) as Hdisk. rewrite Hrun in Hdisk. simpl in Hdisk.
  rewrite main_split, (bind_Done _ _ _ _ _ Hrun).
  rewrite (bind_Done _ _ _ _ _ (confirmApply_accepted w1 confirm rest Hin Hy)).
  rewrite Hdisk. reflexivity.
Qed.

Lemma instanceExists_spec (d : fs) (mcpName : string) :
  instanceExists d mcpName = true <->
  exists file, file ∈ FILES /\ existsSync d (newPathOf file mcpName) = true.
Proof.
  unfold instanceExists. rewrite existsb_exists. split.
  - intros (file & Hin & H). exists file. split; [apply list_elem_of_In|]; assumption.
  - intros (file & Hin & H). exists file. split; [apply list_elem_of_In|]; assumption.
Qed.

(** The changes and the closing instructions ask no question. *)
Lemma quiet_changes (values : valuesMap) (repl : list (string * string)) :
  quiet (applyChanges values repl;; complete values).
Proof.
  apply quiet_bind; [|intros _; apply quiet_complete].
  unfold applyChanges.
  apply quiet_bind; [apply quiet_emit, not_question_header|intros _].
  apply quiet_forOf. intros file. apply quiet_applyRule.
Qed.

(** C8. After an accepted review, the overwrite question is asked exactly
    when one of the four destination files of the chosen name exists, each
    looked up in the directory of its own rule: when one exists the question
    is what the console shows next, and an answer that is neither [y] nor
    [Y] ends the run with the warning and status 0 on the unchanged disk;
    when none exists the run asks no further question. *)
Theorem C8_overwrite_confirmation (w w1 : world) (values : valuesMap)
    (confirm : string) (rest : list string) :
  upToReview w = Done values w1 ->
  stdin w1 = confirm :: rest ->
  confirm = "y" \/ confirm = "Y" ->
  let mcpName := values !!! "MCP_NAME" in
  let asked := console w1 ++ [reviewQuestion] in
  (instanceExists (disk w) mcpName = true <->
   exists file, file ∈ FILES /\ existsSync (disk w) (newPathOf file mcpName) = true) /\
  (instanceExists (disk w) mcpName = true ->
   (exists more,
      console (final (runMain w)) = asked ++ overwriteQuestion mcpName :: more) /\
   (forall overwrite rest',
      rest = overwrite :: rest' -> overwrite <> "y" -> overwrite <> "Y" ->
      runMain w =
        Exit 0 {| stdin := rest'; disk := disk w;
                  console := asked ++ overwriteQuestion mcpName :: cancelled |})) /\
  (instanceExists (disk w) mcpName = false ->
   exists more,
     console (final (runMain w)) = asked ++ more /\
     Forall (fun e => ~ isQuestion e) more).
Proof.
  intros Hrun Hin Hy mcpName asked.
  pose proof (main_after_review w w1 values confirm rest Hrun Hin Hy) as Hmain.
  fold asked in Hmain.
  pose (w2 := fun input => {| stdin := input; disk := disk w; console := asked |}).
  change (main w = afterReview values (w2 rest)) in Hmain.
  split; [apply instanceExists_spec|]. split.
  - intros Hfound. split.
    + unfold runMain, catch. rewrite Hmain. unfold afterReview.
      destruct rest as [|overwrite rest'].
      * rewrite bind_unfold, (confirmOverwrite_pending values (w2 []) Hfound eq_refl).
        exists []. reflexivity.
      * destruct (decide (overwrite = "y" \/ overwrite = "Y")) as [Hyes|Hno].
        -- pose proof (confirmOverwrite_accepted values (w2 (overwrite :: rest'))
                         _ _ Hfound eq_refl Hyes) as Hacc.
           rewrite (bind_Done _ _ _ _ _ Hacc).
           lazymatch type of Hacc with
           | _ = Done _ ?W =>
               destruct (quiet_catch _ (quiet_changes values (replacements values)) W)
                 as (evs & E & _)
           end.
           exists evs. unfold catch in E. rewrite E. simpl.
           rewrite <- List.app_assoc. reflexivity.
        -- rewrite bind_unfold,
             (confirmOverwrite_declined values (w2 (overwrite :: rest'))
                overwrite rest' Hfound eq_refl);
             [|intros ->; apply Hno; auto..].
           exists cancelled. reflexivity.
    + intros overwrite rest' -> H1 H2. unfold runMain, catch.
      rewrite Hmain. unfold afterReview.
      rewrite bind_unfold,
        (confirmOverwrite_declined values (w2 (overwrite :: rest'))
           overwrite rest' Hfound eq_refl H1 H2).
      reflexivity.
  - intros Habsent. unfold runMain.
    destruct (quiet_catch _ (quiet_changes values (replacements values)) (w2 rest))
      as (evs & E & F).
    exists evs. split; [|assumption].
    unfold catch in *. rewrite Hmain. unfold afterReview.
    rewrite (bind_Done _ _ _ _ _ (confirmOverwrite_absent values (w2 rest) Habsent)).
    exact E.
Qed.

(** C8 at a run that chooses the existing name foo, accepts the review and
    answers [n] to the overwrite question. *)
Lemma C8_overwrite_confirmation_witness :
  exists out,
    runMain (sampleRun "foo" ["y"; "n"]) =
    Exit 0 {| stdin := []; disk := sampleDisk; console := out |}.
Proof.
  destruct (sampleRun_review "foo" ["y"; "n"] eq_refl) as [out E].
  destruct (C8_overwrite_confirmation (sampleRun "foo" ["y"; "n"])
              {| stdin := ["y"; "n"]; disk := sampleDisk; console := out |}
              (sampleValues "foo" "") "y" ["n"] E eq_refl (or_introl eq_refl))
    as (_ & Hfound & _).
  destruct (Hfound eq_refl) as [_ Hdeclined].
  eexists. apply (Hdeclined "n" []); [reflexivity|discriminate|discriminate].
Defined.

(** ** The loop over the file rules (lines 243-256) *)

Module RuleFacts.
Import ProcessFacts.

(** A successful write sets the file and leaves every other path alone. *)
Lemma writeFileSync_lookup (d d' : fs) (p : path) (content : string) :
  writeFileSync d p content = inr d' ->
  lookupPath d' p = Some (File content) /\
  forall q, q <> p -> lookupPath d' q = lookupPath d q.
Proof.
  unfold writeFileSync.
  destruct p as [|dd [|n [|x p]]]; try discriminate.
  - (* a file of FORCE_APP_DIR itself *)
    assert (Hd' : d !! dd = None \/ (exists c, d !! dd = Some (Plain c)) ->
      d' = <[dd := Plain content]> d ->
      lookupPath d' [dd] = Some (File content) /\
      forall q, q <> [dd] -> lookupPath d' q = lookupPath d q).
    { intros Hd ->. split; [simpl; rewrite lookup_insert_eq; reflexivity|].
      intros q Hq. destruct q as [|x [|y [|z q]]]; simpl; try reflexivity.
      - rewrite lookup_insert_ne by congruence. reflexivity.
      - destruct (decide (x = dd)) as [->|Hx].
        + rewrite lookup_insert_eq. destruct Hd as [-> | [c ->]]; reflexivity.
        + rewrite lookup_insert_ne by congruence. reflexivity. }
    destruct (d !! dd) as [[c|entries]|] eqn:Hd; [|discriminate|];
      intros [= <-]; apply Hd'; eauto.
  - (* a file of a sub-directory *)
    destruct (d !! dd) as [[c|entries]|] eqn:Hd; try discriminate.
    assert (Hd' : d' = <[dd := Folder (<[n := File content]> entries)]> d ->
      lookupPath d' [dd; n] = Some (File content) /\
      forall q, q <> [dd; n] -> lookupPath d' q = lookupPath d q).
    { intros ->. split.
      - simpl. rewrite lookup_insert_eq. apply lookup_insert_eq.
      - intros q Hq. destruct q as [|x [|y [|z q]]]; simpl; try reflexivity.
        + destruct (decide (x = dd)) as [->|Hx].
          * rewrite lookup_insert_eq, Hd. reflexivity.
          * rewrite lookup_insert_ne by congruence. reflexivity.
        + destruct (decide (x = dd)) as [->|Hx].
          * rewrite lookup_insert_eq, Hd.
            apply lookup_insert_ne. congruence.
          * rewrite lookup_insert_ne by congruence. reflexivity. }
    destruct (entries !! n) as [[c|]|]; [|discriminate|];
      intros [= <-]; apply Hd'; reflexivity.
Qed.

Lemma copyFromTemplate_ok (t n : path) (repl : list (string * string))
    (w : world) (content : string) (d' : fs) :
  readFileSync (disk w) t = inr content ->
  writeFileSync (disk w) n (applyReplacements content repl) = inr d' ->
  copyFromTemplate t n repl w =
    Done tt {| stdin := stdin w; disk := d'; console := console w |}.
Proof.
  intros Hread Hwrite. unfold copyFromTemplate, readFile, writeFile.
  rewrite bind_unfold, Hread. simpl. rewrite Hwrite. reflexivity.
Qed.

Lemma applyRule_missing (values : valuesMap) (repl : list (string * string))
    (file : fileRule) (w : world) :
  existsSync (disk w) (templatePathOf file) = false ->
  applyRule values repl file w =
    Done tt {| stdin := stdin w; disk := disk w;
               console := console w ++
                 [LogError ("Template not found: " +:+ oldName file)] |}.
Proof.
  intros H. unfold applyRule, readDisk. rewrite bind_unfold.
  fold (templatePathOf file). rewrite H. reflexivity.
Qed.

Lemma applyRule_present (values : valuesMap) (repl : list (string * string))
    (file : fileRule) (w w' : world) :
  existsSync (disk w) (templatePathOf file) = true ->
  copyFromTemplate (templatePathOf file)
    (newPathOf file (values !!! "MCP_NAME")) repl w = Done tt w' ->
  applyRule values repl file w =
    Done tt {| stdin := stdin w'; disk := disk w';
               console := console w' ++
                 [LogSuccess ("Created: " +:+ newName file (values !!! "MCP_NAME"))] |}.
Proof.
  intros H Hcopy. unfold applyRule, readDisk. rewrite bind_unfold.
  fold (templatePathOf file). rewrite H. simpl.
  fold (newPathOf file (values !!! "MCP_NAME")).
  rewrite (bind_Done _ _ _ _ _ Hcopy). reflexivity.
Qed.

(** One round of the loop of the model, on a tree that gives the render no
    reason to throw. *)
Lemma applyRule_renderable (values : valuesMap) (repl : list (string * string))
    (file : fileRule) (w : world) :
  renderable (disk w) (values !!! "MCP_NAME") file ->
  exists d',
    applyRule values repl file w =
      Done tt {| stdin := stdin w; disk := d';
                 console := console w ++
                   [ruleReport (disk w) (values !!! "MCP_NAME") file] |} /\
    (forall q, q <> newPathOf file (values !!! "MCP_NAME") ->
               lookupPath d' q = lookupPath (disk w) q) /\
    (forall content,
       readFileSync (disk w) (templatePathOf file) = inr content ->
       readFileSync d' (newPathOf file (values !!! "MCP_NAME"))
       = inr (applyReplacements content repl)).
Proof.
  unfold renderable, ruleReport. intros Hr.
  destruct (lookupPath (disk w) (templatePathOf file)) as [[content|]|] eqn:Ht;
    [|contradiction|].
  - assert (Hex : existsSync (disk w) (templatePathOf file) = true)
      by (unfold existsSync; rewrite Ht; reflexivity).
    assert (Hread : readFileSync (disk w) (templatePathOf file) = inr content)
      by (unfold readFileSync; rewrite Ht; reflexivity).
    assert (Hw : exists d', writeFileSync (disk w)
                   (newPathOf file (values !!! "MCP_NAME"))
                   (applyReplacements content repl) = inr d').
    { unfold writeFileSync, newPathOf, templatePathOf, join, lookupPath in *.
      destruct (disk w !! dir file) as [[c0|entries]|]; try discriminate Ht.
      destruct (entries !! newName file (values !!! "MCP_NAME")) as [[c|]|];
        [eauto|exfalso; apply Hr; reflexivity|eauto]. }
    destruct Hw as [d' Hw]. exists d'.
    destruct (writeFileSync_lookup _ _ _ _ Hw) as [Hnew Hframe].
    rewrite Hex.
    rewrite (applyRule_present values repl file w _ Hex
               (copyFromTemplate_ok _ _ repl w content d' Hread Hw)).
    split; [reflexivity|]. split; [assumption|].
    intros content' Hc. rewrite Hread in Hc. injection Hc as <-.
    unfold readFileSync. rewrite Hnew. reflexivity.
  - assert (Hex : existsSync (disk w) (templatePathOf file) = false)
      by (unfold existsSync; rewrite Ht; reflexivity).
    exists (disk w). rewrite Hex, (applyRule_missing values repl file w Hex).
    split; [reflexivity|]. split; [reflexivity|].
    intros content Hc. unfold readFileSync in Hc. rewrite Ht in Hc. discriminate.
Qed.

(** What a rule reads, it reads in its own directory. *)
Lemma rule_paths_differ (f g : fileRule) (mcpName : string) :
  dir f <> dir g ->
  templatePathOf g <> newPathOf f mcpName /\ newPathOf g mcpName <> newPathOf f mcpName.
Proof. intros H. split; intros [= E _]; congruence. Qed.

(** A read returns the content of a regular file, and only that. *)
Lemma readFileSync_File (d : fs) (p : path) (content : string) :
  readFileSync d p = inr content <-> lookupPath d p = Some (File content).
Proof.
  unfold readFileSync. destruct (lookupPath d p) as [[c|]|]; split;
    intros H; try discriminate; injection H as ->; reflexivity.
Qed.

Lemma renderable_frame (d d' : fs) (mcpName : string) (f g : fileRule) :
  dir f <> dir g ->
  (forall q, q <> newPathOf f mcpName -> lookupPath d' q = lookupPath d q) ->
  (renderable d' mcpName g <-> renderable d mcpName g) /\
  ruleReport d' mcpName g = ruleReport d mcpName g /\
  forall content,
    readFileSync d' (templatePathOf g) = inr content <->
    readFileSync d (templatePathOf g) = inr content.
Proof.
  intros Hdir Hframe. destruct (rule_paths_differ f g mcpName Hdir) as [Ht Hn].
  split; [|split].
  - unfold renderable. rewrite (Hframe _ Ht), (Hframe _ Hn). reflexivity.
  - unfold ruleReport, existsSync. rewrite (Hframe _ Ht). reflexivity.
  - intros content. rewrite !readFileSync_File, (Hframe _ Ht). reflexivity.
Qed.

(** The loop of the model over rules of distinct directories, on a tree
    that gives no render a reason to throw: every rule is reported, in
    order, and every present template is rendered to its destination. *)
Lemma applyRules_spec (values : valuesMap) (repl : list (string * string))
    (rules : list fileRule) (w : world) :
  NoDup (dir <$> rules) ->
  Forall (renderable (disk w) (values !!! "MCP_NAME")) rules ->
  exists d',
    forOf rules (applyRule values repl) w =
      Done tt {| stdin := stdin w; disk := d';
                 console := console w ++
                   (ruleReport (disk w) (values !!! "MCP_NAME") <$> rules) |} /\
    (forall q, (forall f, f ∈ rules -> q <> newPathOf f (values !!! "MCP_NAME")) ->
               lookupPath d' q = lookupPath (disk w) q) /\
    (forall f content, f ∈ rules ->
       readFileSync (disk w) (templatePathOf f) = inr content ->
       readFileSync d' (newPathOf f (values !!! "MCP_NAME"))
       = inr (applyReplacements content repl)).
Proof.
  set (mcpName := values !!! "MCP_NAME").
  revert w. induction rules as [|f rules IH]; intros w Hnd Hall.
  - exists (disk w). simpl. rewrite app_nil_r. destruct w. split; [reflexivity|].
    split; [reflexivity|]. intros f content Hf. apply elem_of_nil in Hf. contradiction.
  - rewrite fmap_cons in Hnd. apply NoDup_cons in Hnd as [Hf Hnd].
    apply Forall_cons in Hall as [Hrf Hall]. rewrite Forall_forall in Hall.
    destruct (applyRule_renderable values repl f w Hrf) as (d1 & E1 & Hframe1 & Hread1).
    fold mcpName in E1, Hframe1, Hread1.
    assert (Hother : forall g, g ∈ rules -> dir f <> dir g).
    { intros g Hg E. apply Hf. rewrite E. apply list_elem_of_fmap. eauto. }
    assert (Hfr : forall g, g ∈ rules ->
              (renderable d1 mcpName g <-> renderable (disk w) mcpName g) /\
              ruleReport d1 mcpName g = ruleReport (disk w) mcpName g /\
              forall content,
                readFileSync d1 (templatePathOf g) = inr content <->
                readFileSync (disk w) (templatePathOf g) = inr content).
    { intros g Hg. apply (renderable_frame _ _ _ f g (Hother g Hg) Hframe1). }
    destruct (IH {| stdin := stdin w; disk := d1;
                    console := console w ++ [ruleReport (disk w) mcpName f] |} Hnd)
      as (d' & E & Hframe & Hread).
    { apply Forall_forall. intros g Hg. apply (Hfr g Hg), Hall, Hg. }
    simpl in E, Hframe, Hread.
    exists d'. split; [|split].
    + simpl. rewrite (bind_Done _ _ _ _ _ E1), E.
      rewrite <- List.app_assoc. simpl. do 4 f_equal.
      apply Forall_fmap_ext_1, Forall_forall. intros g Hg. apply (Hfr g Hg).
    + intros q Hq. rewrite Hframe.
      * apply Hframe1, Hq. left.
      * intros g Hg. apply Hq. right. assumption.
    + intros g content Hg Hc. apply elem_of_cons in Hg as [->|Hg].
      * specialize (Hread1 content Hc).
        apply readFileSync_File. apply readFileSync_File in Hread1.
        rewrite Hframe; [assumption|].
        intros g Hg. apply (rule_paths_differ g f mcpName).
        intros Edir. apply (Hother g Hg). congruence.
      * apply Hread; [assumption|]. apply (proj2 (proj2 (Hfr g Hg))). assumption.
Qed.

Lemma FILES_dirs : NoDup (dir <$> FILES).
Proof. apply (bool_decide_unpack _). vm_compute. exact I. Qed.

Lemma complete_spec (values : valuesMap) (w : world) :
  exists closing,
    complete values w =
      Done tt {| stdin := stdin w; disk := disk w;
                 console := console w ++ LogHeader "Setup Complete!" :: closing |}.
Proof.
  destruct w as [input d out]. eexists. unfold complete.
  cbv [mbind M_bind emit stdin disk console].
  rewrite <- !List.app_assoc. reflexivity.
Qed.

(** The loop of the model and the closing instructions, on a tree that
    gives no render a reason to throw. *)
Lemma changes_spec (values : valuesMap) (repl : list (string * string)) (w : world) :
  Forall (renderable (disk w) (values !!! "MCP_NAME")) FILES ->
  exists d' closing,
    (applyChanges values repl;; complete values) w =
      Done tt {| stdin := stdin w; disk := d';
                 console := console w ++
                   LogHeader "Step 3: Applying Changes" ::
                   (ruleReport (disk w) (values !!! "MCP_NAME") <$> FILES) ++
                   LogHeader "Setup Complete!" :: closing |} /\
    forall file content,
      file ∈ FILES ->
      readFileSync (disk w) (templatePathOf file) = inr content ->
      readFileSync d' (newPathOf file (values !!! "MCP_NAME"))
      = inr (applyReplacements content repl).
Proof.
  intros Hall.
  destruct (applyRules_spec values repl FILES
              {| stdin := stdin w; disk := disk w;
                 console := console w ++ [LogHeader "Step 3: Applying Changes"] |}
              FILES_dirs Hall) as (d' & E & _ & Hread).
  cbn [stdin disk console] in E, Hread.
  match type of E with
  | _ = Done tt ?W => destruct (complete_spec values W) as (closing & Ec)
  end.
  exists d', closing. split; [|exact Hread].
  unfold applyChanges.
  rewrite bind_unfold, bind_unfold. cbn [emit].
  rewrite E, Ec. cbn [stdin disk console].
  rewrite <- !List.app_assoc. reflexivity.
Qed.

End RuleFacts.

(** ** When the loop returns and when it throws (lines 140-144, 243-256) *)

Module ChangeFacts.
Import ProcessFacts RuleFacts.

(** A render that the tree gives a reason to throw does throw. *)
Lemma applyRule_throws (values : valuesMap) (repl : list (string * string))
    (file : fileRule) (w : world) :
  ~ renderable (disk w) (values !!! "MCP_NAME") file ->
  exists w', applyRule values repl file w = Throw EISDIR w'.
Proof.
  unfold renderable, applyRule, readDisk, existsSync. intros Hr.
  rewrite bind_unfold. fold (templatePathOf file).
  fold (newPathOf file (values !!! "MCP_NAME")).
  destruct (lookupPath (disk w) (templatePathOf file)) as [[content|]|] eqn:Ht;
    [| |exfalso; apply Hr; exact I]; cbn [negb].
  - destruct (lookupPath (disk w) (newPathOf file (values !!! "MCP_NAME")))
      as [[c|]|] eqn:Hn; try (exfalso; apply Hr; discriminate).
    rewrite bind_unfold. unfold copyFromTemplate, readFile, writeFile.
    rewrite bind_unfold. unfold readFileSync. rewrite Ht. cbn [try].
    unfold writeFileSync, newPathOf, templatePathOf, join, lookupPath in *.
    destruct (disk w !! dir file) as [[c0|entries]|]; try discriminate Ht.
    rewrite Hn. eauto.
  - rewrite bind_unfold. unfold copyFromTemplate, readFile.
    rewrite bind_unfold. unfold readFileSync. rewrite Ht. cbn [try]. eauto.
Qed.

Lemma renderable_dec (d : fs) (mcpName : string) (file : fileRule) :
  renderable d mcpName file \/ ~ renderable d mcpName file.
Proof.
  unfold renderable.
  destruct (lookupPath d (templatePathOf file)) as [[content|]|]; [|tauto|tauto].
  destruct (lookupPath d (newPathOf file mcpName)) as [[c|]|].
  - left. discriminate.
  - right. intros H. apply H. reflexivity.
  - left. discriminate.
Qed.

(** The loop over rules of distinct directories returns only when the tree
    gives no render a reason to throw. *)
Lemma applyRules_outcomes (values : valuesMap) (repl : list (string * string))
    (rules : list fileRule) (w : world) :
  NoDup (dir <$> rules) ->
  match forOf rules (applyRule values repl) w with
  | Done _ _ => Forall (renderable (disk w) (values !!! "MCP_NAME")) rules
  | Throw _ _ => True
  | Exit _ _ | Pending _ => False
  end.
Proof.
  set (mcpName := values !!! "MCP_NAME").
  revert w. induction rules as [|f rules IH]; intros w Hnd; [constructor|].
  rewrite fmap_cons in Hnd. apply NoDup_cons in Hnd as [Hf Hnd].
  cbn [forOf]. rewrite bind_unfold.
  destruct (renderable_dec (disk w) mcpName f) as [Hr|Hr].
  - destruct (applyRule_renderable values repl f w Hr) as (d1 & E1 & Hframe1 & _).
    fold mcpName in E1, Hframe1. rewrite E1.
    assert (Hfr : forall g, g ∈ rules ->
              (renderable d1 mcpName g <-> renderable (disk w) mcpName g)).
    { intros g Hg. apply (renderable_frame _ _ _ f g); [|exact Hframe1].
      intros E. apply Hf. rewrite E. apply list_elem_of_fmap. eauto. }
    assert (Hall : Forall (renderable d1 mcpName) rules <->
                   Forall (renderable (disk w) mcpName) rules).
    { rewrite !Forall_forall. split; intros H g Hg; apply (Hfr g Hg), H, Hg. }
    specialize (IH {| stdin := stdin w; disk := d1;
                      console := console w ++ [ruleReport (disk w) mcpName f] |} Hnd).
    cbn [disk] in IH.
    destruct (forOf rules (applyRule values repl) _) as [[] w2|code w2|e w2|w2];
      try contradiction; [|exact I].
    apply Forall_cons. split; [assumption|apply Hall, IH].
  - destruct (applyRule_throws values repl f w Hr) as [w' E]. rewrite E. exact I.
Qed.

(** What the loop over [FILES] has done when it returns. *)
Lemma applyChanges_Done (values : valuesMap) (repl : list (string * string))
    (w w1 : world) :
  applyChanges values repl w = Done tt w1 ->
  Forall (renderable (disk w) (values !!! "MCP_NAME")) FILES /\
  stdin w1 = stdin w /\
  console w1 =
    console w ++ LogHeader "Step 3: Applying Changes" ::
      (ruleReport (disk w) (values !!! "MCP_NAME") <$> FILES) /\
  (forall q, (forall f, f ∈ FILES -> q <> newPathOf f (values !!! "MCP_NAME")) ->
             lookupPath (disk w1) q = lookupPath (disk w) q) /\
  (forall f content, f ∈ FILES ->
     readFileSync (disk w) (templatePathOf f) = inr content ->
     readFileSync (disk w1) (newPathOf f (values !!! "MCP_NAME"))
     = inr (applyReplacements content repl)).
Proof.
  unfold applyChanges. rewrite bind_unfold. cbn [emit].
  set (w0 := {| stdin := stdin w; disk := disk w;
                console := console w ++ [LogHeader "Step 3: Applying Changes"] |}).
  intros E.
  pose proof (applyRules_outcomes values repl FILES w0 FILES_dirs) as Hall.
  rewrite E in Hall. cbn [disk w0] in Hall.
  destruct (applyRules_spec values repl FILES w0 FILES_dirs Hall)
    as (d' & E' & Hframe & Hread).
  rewrite E in E'. injection E' as ->. cbn [stdin disk console w0] in *.
  split; [assumption|]. split; [reflexivity|].
  split; [rewrite <- List.app_assoc; reflexivity|]. split; assumption.
Qed.

(** On a tree that gives no render a reason to throw, the loop of the
    model returns. *)
Lemma applyChanges_returns (values : valuesMap) (repl : list (string * string))
    (w : world) :
  Forall (renderable (disk w) (values !!! "MCP_NAME")) FILES ->
  applyChanges values repl w = Done tt (final (applyChanges values repl w)).
Proof.
  intros Hall. unfold applyChanges. rewrite bind_unfold. cbn [emit].
  destruct (applyRules_spec values repl FILES
              {| stdin := stdin w; disk := disk w;
                 console := console w ++ [LogHeader "Step 3: Applying Changes"] |}
              FILES_dirs Hall) as (d' & E & _).
  rewrite E. reflexivity.
Qed.

End ChangeFacts.

Import RuleFacts.



(** ** The renderer (lines 131-144) *)

(** C1. The substitution of the example of the specification gives the
    expected text, and a value with a dollar pattern is not copied as it is:
    the server URL [https://x/$&], which the validation accepts, is written
    with [$&] replaced by the token itself. *)
Theorem C1_dollar_pattern_expanded :
  applyReplacements "Name: MCP_NAME, URL: MCP_SERVER_URL"
    [("MCP_NAME", "weather_api"); ("MCP_SERVER_URL", "https://x")]
  = "Name: weather_api, URL: https://x" /\
  validator "MCP_SERVER_URL" "https://x/$&" = true /\
  applyReplacements "URL: MCP_SERVER_URL" [("MCP_SERVER_URL", "https://x/$&")]
  = "URL: https://x/MCP_SERVER_URL" /\
  applyReplacements "URL: MCP_SERVER_URL"
    (replacements (<["MCP_SERVER_URL" := "https://x/$&"]> (sampleValues "weather_api" "")))
  = "URL: https://x/MCP_SERVER_URL".
Proof. repeat split; vm_compute; reflexivity. Qed.

(** C3. A run that chooses the instance name [template], which the
    validation accepts, and confirms twice, renders the template onto
    itself: the content of the template file is not what it was. *)
Theorem C3_template_overwritten :
  validator "MCP_NAME" TEMPLATE_NAME = true /\
  readFileSync sampleDisk
    (join ["externalCredentials"; "template.externalCredential-meta.xml"])
  = inr "<label>MCP_NAME</label>" /\
  exists w',
    runMain (sampleRun "template" ["y"; "y"]) = Done tt w' /\
    readFileSync (disk w')
      (join ["externalCredentials"; "template.externalCredential-meta.xml"])
    = inr "<label>template</label>".
Proof.
  split; [reflexivity|]. split; [reflexivity|].
  set (values := sampleValues "template" "").
  destruct (sampleRun_review "template" ["y"; "y"] eq_refl) as [out E].
  pose proof (main_after_review _ _ _ "y" ["y"] E eq_refl (or_introl eq_refl))
    as Hmain.
  fold values in Hmain. unfold afterReview in Hmain.
  rewrite (bind_Done _ _ _ _ _
             (confirmOverwrite_accepted values
                {| stdin := ["y"]; disk := sampleDisk;
                   console := out ++ [reviewQuestion] |}
                "y" [] eq_refl eq_refl (or_introl eq_refl))) in Hmain.
  match type of Hmain with
  | _ = _ ?W =>
      destruct (changes_spec values (replacements values) W) as (d' & closing & Ec & Hread)
  end.
  { repeat constructor; vm_compute; discriminate. }
  rewrite Ec in Hmain.
  eexists. split.
  - unfold runMain, catch. rewrite Hmain. reflexivity.
  - exact (Hread {| dir := "externalCredentials";
                    oldName := TEMPLATE_NAME +:+ ".externalCredential-meta.xml";
                    newName := fun name => name +:+ ".externalCredential-meta.xml" |}
             "<label>MCP_NAME</label>"
             (list_elem_of_here _ _) eq_refl).
Qed.

(** ** replaceAll without dollar patterns is the literal substitution *)

Module ReplaceFacts.
Import StrFacts.

Lemma drop_nil (k : nat) : JS.drop k "" = "".
Proof. destruct k; reflexivity. Qed.

Lemma drop_drop (a b : nat) (s : string) : JS.drop a (JS.drop b s) = JS.drop (b + a) s.
Proof.
  revert s. induction b as [|b IH]; intros s; [reflexivity|].
  destruct s as [|c s]; simpl; [apply drop_nil|apply IH].
Qed.

Lemma len_drop (k : nat) (s : string) : JS.len (JS.drop k s) = JS.len s - k.
Proof.
  revert s. induction k as [|k IH]; intros s; simpl; [lia|].
  destruct s as [|c s]; simpl; [reflexivity|apply IH].
Qed.

Lemma drop_all (k : nat) (s : string) : JS.len s <= k -> JS.drop k s = "".
Proof.
  revert s. induction k as [|k IH]; intros [|c s] H; simpl in *;
    try reflexivity; [lia|apply IH; lia].
Qed.

Lemma substring_drop (e k : nat) (s : string) :
  String.substring e k s = String.substring 0 k (JS.drop e s).
Proof.
  revert s. induction e as [|e IH]; intros s; [reflexivity|].
  destruct s as [|c s]; simpl; [destruct k; reflexivity|apply IH].
Qed.

Lemma prefix_len (t s : string) : String.prefix t s = true -> JS.len t <= JS.len s.
Proof.
  revert s. induction t as [|c t IH]; intros s H; simpl; [lia|].
  destruct s as [|d s]; simpl in *; [discriminate|].
  destruct (ascii_dec c d); [|discriminate]. apply IH in H. lia.
Qed.

Lemma prefix_nil (t : string) : String.prefix t "" = true -> t = "".
Proof. destruct t; [reflexivity|discriminate]. Qed.

Section Literal.
Variables token value : string.
Hypothesis token_not_empty : token <> "".

Lemma token_len : 0 < JS.len token.
Proof. destruct token; [contradiction|simpl; lia]. Qed.

Lemma replaceEvery_skip (k : nat) (r : string) :
  replaceEvery token value k r = replaceEvery token value 0 (JS.drop k r).
Proof.
  revert k. induction r as [|c r IH]; intros k.
  - rewrite drop_nil. destruct k; reflexivity.
  - destruct k as [|k]; [reflexivity|]. cbn [replaceEvery JS.drop]. apply IH.
Qed.

Lemma scan_ge (r : string) (i p : nat) :
  JS.scan token r i = Some p -> i <= p.
Proof.
  revert i. induction r as [|c r IH]; intros i; cbn [JS.scan].
  - destruct (String.prefix token ""); [intros [= <-]; lia|discriminate].
  - destruct (String.prefix token (String c r)); [intros [= <-]; lia|].
    intros H. apply IH in H. lia.
Qed.

(** No occurrence: the literal substitution changes nothing. *)
Lemma scan_None_replace (r : string) (i : nat) :
  JS.scan token r i = None -> replaceEvery token value 0 r = r.
Proof.
  revert i. induction r as [|c r IH]; intros i; cbn [JS.scan replaceEvery];
    [reflexivity|].
  destruct (String.prefix token (String c r)); [discriminate|].
  intros H. f_equal. apply (IH _ H).
Qed.

(** A first occurrence at [p]: the literal substitution keeps what stands
    before it, puts the value and goes on after the occurrence. *)
Lemma scan_Some_replace (r : string) (i p : nat) :
  JS.scan token r i = Some p ->
  String.prefix token (JS.drop (p - i) r) = true /\
  replaceEvery token value 0 r =
    String.substring 0 (p - i) r +:+ value +:+
    replaceEvery token value 0 (JS.drop (p - i + JS.len token) r).
Proof.
  revert i. induction r as [|c r IH]; intros i; cbn [JS.scan].
  - destruct (String.prefix token "") eqn:E; [|discriminate].
    apply prefix_nil in E. contradiction.
  - destruct (String.prefix token (String c r)) eqn:E.
    + intros [= <-]. rewrite Nat.sub_diag.
      cbn [JS.drop String.substring replaceEvery Nat.add]. rewrite E.
      split; [reflexivity|]. rewrite str_app_nil_l. f_equal.
      rewrite replaceEvery_skip. pose proof token_len as Hlen.
      destruct (JS.len token) as [|n]; [lia|].
      cbn [JS.drop Nat.sub]. rewrite Nat.sub_0_r. reflexivity.
    + intros H. pose proof (scan_ge _ _ _ H) as Hge.
      destruct (IH _ H) as [Hp Hr].
      replace (p - i) with (S (p - S i)) by lia.
      cbn [JS.drop String.substring replaceEvery Nat.add]. rewrite E.
      split; [assumption|]. rewrite Hr, str_app_cons. reflexivity.
Qed.

Lemma getSubstitution_noDollar (matched str : string) (position : nat) :
  noDollar value -> JS.getSubstitution matched str position value = value.
Proof.
  unfold noDollar. induction value as [|c v IH]; intros H; [reflexivity|].
  apply Forall_cons in H as [Hc Hv]. simpl.
  destruct (Ascii.eqb_spec c "$") as [->|_]; [contradiction|].
  f_equal. apply IH, Hv.
Qed.

(** Enough fuel: from the end [e] of the last match on, the loop of
    replaceAll builds the literal substitution of the rest. *)
Lemma loop_literal (s : string) (fuel e : nat) (acc : string) :
  noDollar value -> e <= JS.len s -> JS.len s - e < fuel ->
  finish s
    (fold_left (step token s value)
       (JS.matchPositions fuel s token (JS.len token) (JS.stringIndexOf s token e))
       (acc, e))
  = acc +:+ replaceEvery token value 0 (JS.drop e s).
Proof.
  intros Hv. revert e acc. induction fuel as [|fuel IH]; intros e acc He Hfuel; [lia|].
  unfold JS.stringIndexOf. rewrite (proj2 (Nat.leb_le _ _) He).
  destruct (JS.scan token (JS.drop e s) e) as [p|] eqn:Escan.
  - pose proof (scan_ge _ _ _ Escan) as Hge.
    destruct (scan_Some_replace _ _ _ Escan) as [Hp Hr].
    rewrite drop_drop in Hp, Hr.
    replace (e + (p - e)) with p in Hp by lia.
    replace (e + (p - e + JS.len token)) with (p + JS.len token) in Hr by lia.
    pose proof token_len as Htoken.
    assert (Hlen : p + JS.len token <= JS.len s).
    { apply prefix_len in Hp. rewrite len_drop in Hp. lia. }
    cbn [JS.matchPositions fold_left]. unfold step at 2. cbn [fst snd].
    rewrite (getSubstitution_noDollar _ _ _ Hv).
    fold (JS.stringIndexOf s token (p + JS.len token)).
    rewrite IH by lia.
    rewrite Hr. unfold JS.slice. rewrite substring_drop.
    rewrite !str_app_assoc. reflexivity.
  - cbn [JS.matchPositions fold_left]. unfold finish. cbn [fst snd].
    rewrite (scan_None_replace _ _ Escan).
    destruct (e <? JS.len s) eqn:El; [reflexivity|].
    apply Nat.ltb_ge in El. rewrite (drop_all e s El), str_app_nil_r. reflexivity.
Qed.

Lemma replaceAll_literal (s : string) :
  noDollar value -> JS.replaceAll s token value = replaceLiteral token value s.
Proof.
  intros Hv. unfold JS.replaceAll, replaceLiteral.
  assert (Hmax : Nat.max 1 (JS.len token) = JS.len token).
  { pose proof token_len. lia. }
  rewrite Hmax.
  pose proof (loop_literal s (S (JS.len s)) 0 "" Hv (Nat.le_0_l _)) as H.
  unfold finish, step in H. simpl JS.drop in H. rewrite str_app_nil_l in H.
  rewrite <- H by lia.
  destruct (fold_left _ _ _) as [result endOfLastMatch] eqn:E.
  match type of E with
  | fold_left ?f _ _ = _ =>
      match goal with
      | |- context [fold_left ?g _ _] =>
          assert (Hfg : forall l st, fold_left g l st = fold_left f l st)
      end
  end.
  { induction l as [|p l IHl]; intros [r e]; [reflexivity|]. simpl. apply IHl. }
  rewrite Hfg, E. reflexivity.
Qed.

End Literal.

(** X1. When no token of the map is empty and no value holds a dollar
    sign, the substitution of the renderer is the literal one: the pairs are
    applied in the order of the map, each replacing every occurrence of its
    token, from left to right and without overlap, by its value as it is. *)
Lemma applyReplacements_literal (content : string)
    (repl : list (string * string)) :
  Forall (fun '(token, value) => token <> "" /\ noDollar value) repl ->
  applyReplacements content repl = applyLiterally content repl.
Proof.
  unfold applyReplacements, applyLiterally.
  revert content. induction repl as [|[token value] repl IH]; intros content H;
    [reflexivity|].
  apply Forall_cons in H as [[Ht Hv] H]. simpl.
  rewrite (replaceAll_literal token value Ht content Hv). apply IH, H.
Qed.

End ReplaceFacts.

(** X1 at the example of the specification. *)
Lemma applyReplacements_literal_witness :
  applyReplacements "Name: MCP_NAME, URL: MCP_SERVER_URL"
    [("MCP_NAME", "weather_api"); ("MCP_SERVER_URL", "https://x")]
  = applyLiterally "Name: MCP_NAME, URL: MCP_SERVER_URL"
      [("MCP_NAME", "weather_api"); ("MCP_SERVER_URL", "https://x")].
Proof.
  apply ReplaceFacts.applyReplacements_literal.
  repeat constructor; discriminate.
Defined.

(** The string primitives on small inputs. *)
Example replaceAll_plain : JS.replaceAll "a-b-c" "-" "+" = "a+b+c".
Proof. reflexivity. Qed.

Example replaceAll_no_overlap : JS.replaceAll "xaaay" "aa" "[$&]" = "x[aa]ay".
Proof. reflexivity. Qed.

Example replaceAll_empty_search : JS.replaceAll "abc" "" "-" = "-a-b-c-".
Proof. reflexivity. Qed.

Example replaceAll_patterns :
  JS.replaceAll "abc" "b" "[$`|$'|$$|$1|$<]" = "a[a|c|$|$1|$<]c".
Proof. reflexivity. Qed.

Example replaceLiteral_dollar : replaceLiteral "b" "[$&]" "abc" = "a[$&]c".
Proof. reflexivity. Qed.

Example toLowerCase_ascii : JS.toLowerCase "Yes" = "yes".
Proof. reflexivity. Qed.

(** ** What the driver writes *)

Module FrameFacts.
Import StrFacts ProcessFacts RuleFacts.

Lemma writesOnly_readOnly {A : Type} (P : path -> Prop) (m : M A) :
  readOnly m -> writesOnly P m.
Proof. intros Hm w q _. rewrite Hm. reflexivity. Qed.

Lemma writesOnly_bind {A B : Type} (P : path -> Prop) (m : M A) (f : A -> M B) :
  writesOnly P m -> (forall a, writesOnly P (f a)) -> writesOnly P (m ≫= f).
Proof.
  intros Hm Hf w q Hq. rewrite bind_unfold. specialize (Hm w q Hq).
  destruct (m w) as [a w'| | |]; simpl in *; try assumption.
  rewrite (Hf a w' q Hq). assumption.
Qed.

Lemma writesOnly_forOf {A : Type} (P : path -> Prop) (l : list A)
    (body : A -> M unit) :
  (forall x, x ∈ l -> writesOnly P (body x)) -> writesOnly P (forOf l body).
Proof.
  induction l as [|x l IH]; intros Hbody; simpl.
  - apply writesOnly_readOnly, readOnly_ret.
  - apply writesOnly_bind; [apply Hbody; left|].
    intros _. apply IH. intros y Hy. apply Hbody. right. assumption.
Qed.

Lemma writesOnly_writeFile (P : path -> Prop) (p : path) (content : string) :
  P p -> writesOnly P (writeFile p content).
Proof.
  intros Hp w q Hq. unfold writeFile.
  destruct (writeFileSync (disk w) p content) as [e|d'] eqn:E; [reflexivity|].
  simpl. apply (writeFileSync_lookup _ _ _ _ E). intros ->. contradiction.
Qed.

Lemma writesOnly_copyFromTemplate (P : path -> Prop) (t n : path)
    (repl : list (string * string)) :
  P n -> writesOnly P (copyFromTemplate t n repl).
Proof.
  intros Hn. unfold copyFromTemplate. apply writesOnly_bind.
  - apply writesOnly_readOnly. intros w. unfold readFile, try.
    destruct (readFileSync (disk w) t); reflexivity.
  - intros content. apply writesOnly_writeFile, Hn.
Qed.

Lemma writesOnly_applyRule (P : path -> Prop) (values : valuesMap)
    (repl : list (string * string)) (file : fileRule) :
  P (newPathOf file (values !!! "MCP_NAME")) ->
  writesOnly P (applyRule values repl file).
Proof.
  intros Hp. unfold applyRule.
  apply writesOnly_bind; [apply writesOnly_readOnly, readOnly_readDisk|].
  intros present. destruct present; simpl.
  - apply writesOnly_bind; [apply writesOnly_copyFromTemplate, Hp|].
    intros _. apply writesOnly_readOnly, readOnly_emit.
  - apply writesOnly_readOnly, readOnly_emit.
Qed.

Lemma readOnly_complete (values : valuesMap) : readOnly (complete values).
Proof.
  unfold complete.
  repeat (apply readOnly_bind; [apply readOnly_emit|intros _]).
  apply readOnly_emit.
Qed.

Lemma readOnly_confirmApply : readOnly confirmApply.
Proof.
  unfold confirmApply. apply readOnly_bind; [apply readOnly_prompt|].
  intros confirm. destruct (negb _); [|apply readOnly_ret].
  repeat (apply readOnly_bind; [apply readOnly_emit|intros _]).
  apply readOnly_exit.
Qed.

Lemma readOnly_confirmOverwrite (values : valuesMap) :
  readOnly (confirmOverwrite values).
Proof.
  unfold confirmOverwrite. apply readOnly_bind; [apply readOnly_readDisk|].
  intros found. destruct found; [|apply readOnly_ret].
  apply readOnly_bind; [apply readOnly_prompt|].
  intros overwrite. destruct (negb _); [|apply readOnly_ret].
  repeat (apply readOnly_bind; [apply readOnly_emit|intros _]).
  apply readOnly_exit.
Qed.

(** After the review the driver writes the four destinations only. *)
Lemma writesOnly_afterReview (values : valuesMap) :
  writesOnly (isDestination (values !!! "MCP_NAME"))
    (confirmApply;; afterReview values).
Proof.
  apply writesOnly_bind; [apply writesOnly_readOnly, readOnly_confirmApply|].
  intros _. unfold afterReview.
  apply writesOnly_bind;
    [apply writesOnly_readOnly, readOnly_confirmOverwrite|intros _].
  apply writesOnly_bind; [|intros _; apply writesOnly_readOnly, readOnly_complete].
  unfold applyChanges.
  apply writesOnly_bind; [apply writesOnly_readOnly, readOnly_emit|intros _].
  apply writesOnly_forOf. intros file Hfile.
  apply writesOnly_applyRule. exists file. auto.
Qed.

Lemma catch_disk (m : M unit) (w : world) :
  disk (final (catch m w)) = disk (final (m w)).
Proof. unfold catch. destruct (m w); reflexivity. Qed.

(** A template is the destination of a rule for the template name only. *)
Lemma template_not_destination (mcpName : string) (file : fileRule) :
  mcpName <> TEMPLATE_NAME -> file ∈ FILES ->
  ~ isDestination mcpName (templatePathOf file).
Proof.
  intros Hname Hfile (g & Hg & E).
  assert (Hrule : dir file = dir g /\ oldName file = newName g mcpName)
    by (injection E; auto).
  destruct Hrule as [Hdir Hn]. clear E. unfold FILES in Hfile, Hg.
  repeat (apply elem_of_cons in Hfile as [->|Hfile]);
    try (apply elem_of_nil in Hfile; contradiction);
    repeat (apply elem_of_cons in Hg as [->|Hg]);
    try (apply elem_of_nil in Hg; contradiction);
    cbn [dir oldName newName] in Hdir, Hn;
    first [ discriminate Hdir
          | apply str_app_inv_tail in Hn; congruence ].
Qed.

End FrameFacts.

Import FrameFacts.

(** X2. In a run whose chosen instance name is not the template name, the
    four template files end as they started, however the run ends. *)
Theorem templates_kept_for_other_names (w : world) (file : fileRule) :
  (forall values w1,
     upToReview w = Done values w1 -> values !!! "MCP_NAME" <> TEMPLATE_NAME) ->
  file ∈ FILES ->
  lookupPath (disk (final (runMain w))) (templatePathOf file)
  = lookupPath (disk w) (templatePathOf file).
Proof.
  intros Hname Hfile. unfold runMain. rewrite catch_disk, main_split, bind_unfold.
  pose proof (readOnly_upToReview w) as Hdisk.
  destruct (upToReview w) as [values w1| | |] eqn:E; simpl in Hdisk;
    try (simpl; rewrite Hdisk; reflexivity).
  rewrite <- Hdisk. apply writesOnly_afterReview.
  apply template_not_destination; [apply (Hname values w1); reflexivity|assumption].
Qed.

(** X2 at a run that chooses the name [weather_api] and confirms. *)
Lemma templates_kept_for_other_names_witness :
  lookupPath (disk (final (runMain (sampleRun "weather_api" ["y"]))))
    (join ["externalCredentials"; "template.externalCredential-meta.xml"])
  = lookupPath sampleDisk
      (join ["externalCredentials"; "template.externalCredential-meta.xml"]).
Proof.
  apply (templates_kept_for_other_names (sampleRun "weather_api" ["y"])
           {| dir := "externalCredentials";
              oldName := TEMPLATE_NAME +:+ ".externalCredential-meta.xml";
              newName := fun name => name +:+ ".externalCredential-meta.xml" |}).
  - intros values w1 E'.
    destruct (sampleRun_review "weather_api" ["y"] eq_refl) as [out E].
    rewrite E in E'. injection E' as <- _. discriminate.
  - apply list_elem_of_here.
Defined.

(** ** The collected values are validated (lines 112-125, 193-196) *)

Module CollectFacts.
Import ProcessFacts.

Lemma bind_Done_inv {A B : Type} (m : M A) (f : A -> M B) (w w' : world) (b : B) :
  (m ≫= f) w = Done b w' -> exists a w1, m w = Done a w1 /\ f a w1 = Done b w'.
Proof.
  rewrite bind_unfold. destruct (m w) as [a w1| | |]; try discriminate. eauto.
Qed.

Lemma askUntilValid_Done (v : variable) (input : list string) (d : fs)
    (out : list event) (a : string) (w' : world) :
  askUntilValid v input d out = Done a w' -> v_validate v a = true.
Proof.
  revert out. induction input as [|answer rest IH]; intros out; simpl.
  - discriminate.
  - destruct (v_validate v answer) eqn:E; [intros [= <- _]; exact E|apply IH].
Qed.

Lemma promptWithValidation_Done (v : variable) (w w' : world) (a : string) :
  promptWithValidation v w = Done a w' -> v_validate v a = true.
Proof. unfold promptWithValidation. apply askUntilValid_Done. Qed.

(** The collecting loop, over variables with distinct keys. *)
Lemma collect_valid (vars : list variable) (acc values : valuesMap) (w w' : world) :
  NoDup (v_key <$> vars) ->
  forOfAcc vars
    (fun values variable =>
       answer ← promptWithValidation variable;
       mret (<[v_key variable := answer]> values)) acc w = Done values w' ->
  (forall v, v ∈ vars ->
     exists a, values !! v_key v = Some a /\ v_validate v a = true) /\
  (forall k, k ∉ v_key <$> vars -> values !! k = acc !! k).
Proof.
  revert acc w. induction vars as [|v vars IH]; intros acc w Hnd H.
  - injection H as <- _. split; [|reflexivity].
    intros v Hv. apply elem_of_nil in Hv. contradiction.
  - rewrite fmap_cons in Hnd. apply NoDup_cons in Hnd as [Hv Hnd].
    cbn [forOfAcc] in H.
    apply bind_Done_inv in H as (acc' & w1 & H1 & H).
    apply bind_Done_inv in H1 as (a & w2 & Ha & [= <- <-]).
    apply promptWithValidation_Done in Ha.
    destruct (IH _ _ Hnd H) as [Hvalid Hframe]. split.
    + intros u Hu. apply elem_of_cons in Hu as [->|Hu]; [|auto].
      exists a. split; [|assumption].
      rewrite (Hframe _ Hv). apply lookup_insert_eq.
    + intros k Hk. rewrite fmap_cons, not_elem_of_cons in Hk. destruct Hk as [Hkv Hk].
      rewrite (Hframe _ Hk). apply lookup_insert_ne. congruence.
Qed.

Lemma VARIABLES_keys : NoDup (v_key <$> VARIABLES).
Proof. apply (bool_decide_unpack _). vm_compute. exact I. Qed.

Lemma gatherValues_valid (w w' : world) (values : valuesMap) :
  gatherValues w = Done values w' ->
  (forall v, v ∈ VARIABLES ->
     exists a, values !! v_key v = Some a /\ v_validate v a = true) /\
  (forall k, k ∉ v_key <$> VARIABLES -> values !! k = None).
Proof.
  unfold gatherValues. intros H.
  apply bind_Done_inv in H as ([] & w1 & _ & H).
  apply bind_Done_inv in H as (existing & w2 & _ & H).
  apply bind_Done_inv in H as ([] & w3 & _ & H).
  destruct (collect_valid _ _ _ _ _ VARIABLES_keys H) as [Hvalid Hframe].
  split; [assumption|]. intros k Hk. rewrite (Hframe k Hk). apply lookup_empty.
Qed.

Lemma upToReview_valid (w w1 : world) (values : valuesMap) :
  upToReview w = Done values w1 ->
  (forall v, v ∈ VARIABLES ->
     exists a, values !! v_key v = Some a /\ v_validate v a = true) /\
  (forall k, k ∉ v_key <$> VARIABLES -> values !! k = None).
Proof.
  unfold upToReview. intros H.
  apply bind_Done_inv in H as ([] & w2 & _ & H).
  apply bind_Done_inv in H as (values' & w3 & Hg & H).
  apply bind_Done_inv in H as ([] & w4 & _ & [= <- _]).
  apply (gatherValues_valid _ _ _ Hg).
Qed.

End CollectFacts.

Import CollectFacts.

(** X3. The values that reach the review have passed the validation: for
    each of the four variables the object of the values holds an answer
    under the key of the variable, the predicate of that variable accepts
    this answer, and the object has no other key. *)
Theorem collected_values_are_valid (w w1 : world) (values : valuesMap) :
  upToReview w = Done values w1 ->
  (forall v, v ∈ VARIABLES ->
     exists a, values !! v_key v = Some a /\ v_validate v a = true) /\
  (forall k, k ∉ v_key <$> VARIABLES -> values !! k = None).
Proof. apply upToReview_valid. Qed.

(** X3 at the sample run. *)
Lemma collected_values_are_valid_witness :
  (forall v, v ∈ VARIABLES ->
     exists a, sampleValues "weather_api" "" !! v_key v = Some a /\
               v_validate v a = true) /\
  (forall k, k ∉ v_key <$> VARIABLES -> sampleValues "weather_api" "" !! k = None).
Proof.
  destruct (sampleRun_review "weather_api" [] eq_refl) as [out E].
  apply (collected_values_are_valid _ _ _ E).
Defined.

(** ** The collector, on every input (lines 112-125) *)

Module CollectorFacts.
Import ProcessFacts.

Lemma askUntilValid_outcomes (v : variable) (input : list string) (d : fs)
    (out : list event) :
  match askUntilValid v input d out with
  | Done a w' =>
      exists bad,
        input = bad ++ a :: stdin w' /\
        Forall (fun b => v_validate v b = false) bad /\
        v_validate v a = true /\ disk w' = d /\
        console w' = out ++ rejections v bad ++ [questionOf v]
  | Pending w' =>
      Forall (fun b => v_validate v b = false) input /\
      stdin w' = [] /\ disk w' = d /\
      console w' = out ++ rejections v input ++ [questionOf v]
  | Exit _ _ | Throw _ _ => False
  end.
Proof.
  revert out. induction input as [|answer rest IH]; intros out.
  - cbn [askUntilValid stdin disk console]. repeat split. constructor.
  - cbn [askUntilValid]. destruct (v_validate v answer) eqn:E.
    + exists []. cbn [stdin disk console]. repeat split; auto.
    + specialize (IH ((out ++ [questionOf v]) ++ [LogError (v_error v)])).
      unfold questionOf in IH at 1.
      destruct (askUntilValid v rest d _) as [a w'| | |w']; try contradiction.
      * destruct IH as (bad & Hin & Hbad & Ha & Hd & Hc).
        exists (answer :: bad). rewrite Hin at 1. repeat split; auto.
        rewrite Hc. unfold rejections. rewrite fmap_cons. cbn [concat].
        rewrite <- !List.app_assoc. reflexivity.
      * destruct IH as (Hbad & Hin & Hd & Hc). repeat split; auto.
        rewrite Hc. unfold rejections. rewrite fmap_cons. cbn [concat].
        rewrite <- !List.app_assoc. reflexivity.
Qed.

End CollectorFacts.

(** X4. On every input the collector of one variable either returns or
    waits for more input, and never exits or throws. It returns the first
    line that its predicate accepts, having consumed the rejected lines
    before it and printed the question and the error message once for each
    of them; when no line of the input is accepted it has printed that for
    every line and waits with the question on the console. The disk is not
    touched. *)
Theorem promptWithValidation_outcomes (v : variable) (w : world) :
  match promptWithValidation v w with
  | Done a w' =>
      exists bad,
        stdin w = bad ++ a :: stdin w' /\
        Forall (fun b => v_validate v b = false) bad /\
        v_validate v a = true /\ disk w' = disk w /\
        console w' =
          console w ++ introduction v ++ rejections v bad ++ [questionOf v]
  | Pending w' =>
      Forall (fun b => v_validate v b = false) (stdin w) /\
      stdin w' = [] /\ disk w' = disk w /\
      console w' =
        console w ++ introduction v ++ rejections v (stdin w) ++ [questionOf v]
  | Exit _ _ | Throw _ _ => False
  end.
Proof.
  pose proof (CollectorFacts.askUntilValid_outcomes v (stdin w) (disk w)
                ((console w ++ [ConsoleLog (nl +:+ v_key v)])
                   ++ [ConsoleLog (v_description v)])) as H.
  change (promptWithValidation v w)
    with (askUntilValid v (stdin w) (disk w)
            ((console w ++ [ConsoleLog (nl +:+ v_key v)])
               ++ [ConsoleLog (v_description v)])).
  unfold introduction.
  destruct (askUntilValid v (stdin w) (disk w) _) as [a w'| | |w'];
    try contradiction.
  - destruct H as (bad & Hin & Hbad & Ha & Hd & Hc). exists bad.
    repeat split; auto. rewrite Hc, <- !List.app_assoc. reflexivity.
  - destruct H as (Hbad & Hin & Hd & Hc).
    repeat split; auto. rewrite Hc, <- !List.app_assoc. reflexivity.
Qed.

(** ** How a run can end (lines 171-281) *)

Module OutcomeFacts.
Import ProcessFacts RuleFacts.

Lemma interactive_ret {A : Type} (a : A) : interactive (mret a : M A).
Proof. intros w. reflexivity. Qed.

Lemma interactive_bind {A B : Type} (m : M A) (f : A -> M B) :
  interactive m -> (forall a, interactive (f a)) -> interactive (m ≫= f).
Proof.
  intros Hm Hf w. rewrite bind_unfold. specialize (Hm w).
  destruct (m w) as [a w1| |e w1|w1]; try assumption.
  specialize (Hf a w1). destruct (f a w1) as [b w2| |e w2|w2]; try assumption.
  - congruence.
  - congruence.
  - unfold starved in *. rewrite <- Hm. assumption.
Qed.

Lemma interactive_emit (e : event) : interactive (emit e).
Proof. intros w. reflexivity. Qed.

Lemma interactive_prompt (question : string) : interactive (prompt question).
Proof.
  intros w. unfold prompt. destruct (stdin w) as [|answer rest] eqn:E.
  - split; [reflexivity|]. split; [reflexivity|]. eexists _, _. reflexivity.
  - reflexivity.
Qed.

Lemma interactive_forOf {A : Type} (l : list A) (body : A -> M unit) :
  (forall x, interactive (body x)) -> interactive (forOf l body).
Proof.
  intros Hbody. induction l as [|x l IH]; simpl.
  - apply interactive_ret.
  - apply interactive_bind; [apply Hbody|intros _; apply IH].
Qed.

Lemma interactive_forOfAcc {A S : Type} (l : list A) (body : S -> A -> M S)
    (acc : S) :
  (forall s x, interactive (body s x)) -> interactive (forOfAcc l body acc).
Proof.
  intros Hbody. revert acc. induction l as [|x l IH]; intros acc; simpl.
  - apply interactive_ret.
  - apply interactive_bind; [apply Hbody|intros acc'; apply IH].
Qed.

Lemma interactive_promptWithValidation (v : variable) :
  interactive (promptWithValidation v).
Proof.
  intros w.
  pose proof (CollectorFacts.askUntilValid_outcomes v (stdin w) (disk w)
                ((console w ++ [ConsoleLog (nl +:+ v_key v)])
                   ++ [ConsoleLog (v_description v)])) as H.
  change (promptWithValidation v w)
    with (askUntilValid v (stdin w) (disk w)
            ((console w ++ [ConsoleLog (nl +:+ v_key v)])
               ++ [ConsoleLog (v_description v)])).
  destruct (askUntilValid v (stdin w) (disk w) _) as [a w'| | |w'];
    try contradiction.
  - destruct H as (bad & _ & _ & _ & Hd & _). exact Hd.
  - destruct H as (_ & Hin & Hd & Hc). split; [exact Hd|]. split; [exact Hin|].
    unfold questionOf in Hc. eexists _, _. rewrite Hc, !List.app_assoc. reflexivity.
Qed.

Lemma interactive_welcome : interactive welcome.
Proof.
  unfold welcome.
  do 5 (apply interactive_bind; [apply interactive_emit|intros _]).
  apply interactive_bind.
  - apply interactive_forOf. intros [n v]. apply interactive_emit.
  - intros _. apply interactive_bind; [apply interactive_prompt|].
    intros _. apply interactive_ret.
Qed.

Lemma interactive_gatherValues : interactive gatherValues.
Proof.
  unfold gatherValues.
  apply interactive_bind; [apply interactive_emit|intros _].
  apply interactive_bind.
  { intros w. unfold try.
    destruct (getExistingInstances (disk w)) as [e|names]; reflexivity. }
  intros existing. apply interactive_bind.
  { destruct (0 <? length existing); [apply interactive_emit|apply interactive_ret]. }
  intros _. apply interactive_forOfAcc. intros values v.
  apply interactive_bind; [apply interactive_promptWithValidation|].
  intros answer. apply interactive_ret.
Qed.

Lemma interactive_showSummary (values : valuesMap) : interactive (showSummary values).
Proof.
  unfold showSummary.
  do 7 (apply interactive_bind; [apply interactive_emit|intros _]).
  apply interactive_forOf. intros file.
  apply interactive_bind; [apply interactive_emit|intros _; apply interactive_emit].
Qed.

Lemma interactive_upToReview : interactive upToReview.
Proof.
  unfold upToReview.
  apply interactive_bind; [apply interactive_welcome|intros _].
  apply interactive_bind; [apply interactive_gatherValues|intros values].
  apply interactive_bind; [apply interactive_showSummary|intros _].
  apply interactive_ret.
Qed.

Lemma batch_ret {A : Type} (a : A) : batch (mret a : M A).
Proof. intros w. exact I. Qed.

Lemma batch_bind {A B : Type} (m : M A) (f : A -> M B) :
  batch m -> (forall a, batch (f a)) -> batch (m ≫= f).
Proof.
  intros Hm Hf w. rewrite bind_unfold. specialize (Hm w).
  destruct (m w) as [a w1| | |w1]; try assumption. apply Hf.
Qed.

Lemma batch_emit (e : event) : batch (emit e).
Proof. intros w. exact I. Qed.

Lemma batch_forOf {A : Type} (l : list A) (body : A -> M unit) :
  (forall x, batch (body x)) -> batch (forOf l body).
Proof.
  intros Hbody. induction l as [|x l IH]; simpl.
  - apply batch_ret.
  - apply batch_bind; [apply Hbody|intros _; apply IH].
Qed.

Lemma batch_copyFromTemplate (t n : path) (repl : list (string * string)) :
  batch (copyFromTemplate t n repl).
Proof.
  unfold copyFromTemplate. apply batch_bind.
  - intros w. unfold readFile, try. destruct (readFileSync (disk w) t); exact I.
  - intros content w. unfold writeFile.
    destruct (writeFileSync (disk w) n _); exact I.
Qed.

Lemma batch_applyChanges (values : valuesMap) (repl : list (string * string)) :
  batch (applyChanges values repl).
Proof.
  unfold applyChanges. apply batch_bind; [apply batch_emit|intros _].
  apply batch_forOf. intros file. unfold applyRule.
  apply batch_bind; [intros w; exact I|].
  intros present. destruct present; simpl; [|apply batch_emit].
  apply batch_bind; [apply batch_copyFromTemplate|intros _; apply batch_emit].
Qed.

(** The changes and the closing instructions: completion, or an exception. *)
Lemma changes_outcomes (values : valuesMap) (repl : list (string * string))
    (w : world) :
  match (applyChanges values repl;; complete values) w with
  | Done _ w' => reportsCompletion w'
  | Throw _ _ => True
  | Exit _ _ | Pending _ => False
  end.
Proof.
  rewrite bind_unfold. pose proof (batch_applyChanges values repl w) as Hb.
  destruct (applyChanges values repl w) as [[] w1| | |w1]; try assumption.
  destruct (complete_spec values w1) as (closing & E). rewrite E.
  eexists _, _. reflexivity.
Qed.

Lemma confirmApply_pending (w : world) :
  stdin w = [] ->
  confirmApply w =
    Pending {| stdin := []; disk := disk w;
               console := console w ++ [reviewQuestion] |}.
Proof.
  intros Hin. unfold confirmApply.
  rewrite bind_unfold, (prompt_pending _ _ Hin). reflexivity.
Qed.

End OutcomeFacts.

(** X5. The process ends in one of four ways, and no exception escapes it.
    It completes, and then the console shows the completion header. It
    exits with status 0 at a declined confirmation, and then the console
    ends with the cancellation warning and the disk is the one it started
    with. It exits with status 1 from the handler of [main], and then the
    console ends with the message of the error caught and the closing of
    readline. Or [main] is left at a question with the input used up, the
    question being the last thing printed and the disk the one it started
    with: it never returns (a process whose input has ended then ends
    there, without another word). *)
Theorem runMain_outcomes (w : world) :
  match runMain w with
  | Done _ w' => reportsCompletion w'
  | Exit code w' =>
      (code = 0 /\ disk w' = disk w /\ exists out, console w' = out ++ cancelled) \/
      (code = 1 /\ exists out, console w' = out ++ [LogErrorMessage; RlClose])
  | Throw _ _ => False
  | Pending w' => starved w w'
  end.
Proof.
  assert (Hcaught : forall w1 : world,
    exists out,
      console (final ((emit LogErrorMessage;; emit RlClose;; exit 1 : M unit) w1))
      = out ++ [LogErrorMessage; RlClose]).
  { intros w1. exists (console w1). cbv [mbind M_bind emit exit final console].
    rewrite <- List.app_assoc. reflexivity. }
  assert (Hdone : forall values w3,
    match catch (applyChanges values (replacements values);; complete values) w3 with
    | Done _ w' => reportsCompletion w'
    | Exit code w' =>
        (code = 0 /\ disk w' = disk w /\ exists out, console w' = out ++ cancelled) \/
        (code = 1 /\ exists out, console w' = out ++ [LogErrorMessage; RlClose])
    | Throw _ _ => False
    | Pending w' => starved w w'
    end).
  { intros values w3. unfold catch.
    pose proof (OutcomeFacts.changes_outcomes values (replacements values) w3) as H.
    destruct ((applyChanges values (replacements values);; complete values) w3)
      as [[] w4| |e w4|]; try assumption; try contradiction.
    right. split; [reflexivity|]. apply (Hcaught w4). }
  unfold runMain. unfold catch at 1. rewrite main_split, bind_unfold.
  pose proof (OutcomeFacts.interactive_upToReview w) as Hup.
  destruct (upToReview w) as [values w1| |e w1|w1]; try assumption;
    try contradiction.
  2:{ right. split; [reflexivity|]. apply (Hcaught w1). }
  rewrite bind_unfold.
  destruct (stdin w1) as [|confirm rest] eqn:Hin.
  { rewrite (OutcomeFacts.confirmApply_pending w1 Hin).
    split; [assumption|]. split; [reflexivity|]. eexists _, _. reflexivity. }
  destruct (decide (confirm = "y" \/ confirm = "Y")) as [Hy|Hn].
  2:{ rewrite (confirmApply_declined w1 confirm rest Hin); [|intros ->; apply Hn; auto..].
      left. split; [reflexivity|]. split; [assumption|].
      exists (console w1 ++ [reviewQuestion]). cbn [console].
      rewrite <- List.app_assoc. reflexivity. }
  rewrite (confirmApply_accepted w1 confirm rest Hin Hy).
  set (w2 := {| stdin := rest; disk := disk w1;
                console := console w1 ++ [reviewQuestion] |}).
  unfold afterReview. rewrite bind_unfold.
  destruct (instanceExists (disk w2) (values !!! "MCP_NAME")) eqn:Hfound.
  2:{ rewrite (confirmOverwrite_absent values w2 Hfound).
      apply (Hdone values w2). }
  destruct rest as [|overwrite rest'].
  { rewrite (confirmOverwrite_pending values w2 Hfound eq_refl).
    split; [assumption|]. split; [reflexivity|]. eexists _, _. reflexivity. }
  destruct (decide (overwrite = "y" \/ overwrite = "Y")) as [Hoy|Hon].
  2:{ rewrite (confirmOverwrite_declined values w2 overwrite rest' Hfound eq_refl);
        [|intros ->; apply Hon; auto..].
      left. split; [reflexivity|]. split; [assumption|].
      exists (console w2 ++ [overwriteQuestion (values !!! "MCP_NAME")]).
      cbn [console]. rewrite <- !List.app_assoc. reflexivity. }
  rewrite (confirmOverwrite_accepted values w2 overwrite rest' Hfound eq_refl Hoy).
  apply (Hdone values _).
Qed.

(** ** The renderer, on every disk (lines 140-144) *)

Module RenderFacts.
Import ProcessFacts RuleFacts.

Lemma copyFromTemplate_Done_inv (t n : path) (repl : list (string * string))
    (w w' : world) :
  copyFromTemplate t n repl w = Done tt w' ->
  exists content,
    readFileSync (disk w) t = inr content /\
    writeFileSync (disk w) n (applyReplacements content repl) = inr (disk w') /\
    stdin w' = stdin w /\ console w' = console w.
Proof.
  unfold copyFromTemplate, readFile, writeFile, try. rewrite bind_unfold.
  destruct (readFileSync (disk w) t) as [e|content]; [discriminate|].
  destruct (writeFileSync (disk w) n (applyReplacements content repl))
    as [e|d'] eqn:E; [discriminate|].
  intros [= <-]. exists content. rewrite E. auto.
Qed.

Lemma copyFromTemplate_Throw_inv (t n : path) (repl : list (string * string))
    (w w' : world) (e : ioError) :
  copyFromTemplate t n repl w = Throw e w' -> w' = w.
Proof.
  unfold copyFromTemplate, readFile, writeFile, try. rewrite bind_unfold.
  destruct (readFileSync (disk w) t) as [e1|content]; [intros [= _ <-]; reflexivity|].
  destruct (writeFileSync (disk w) n (applyReplacements content repl));
    [intros [= _ <-]; reflexivity|discriminate].
Qed.

Lemma readFileSync_frame (d d' : fs) (q : path) (content : string) :
  lookupPath d' q = lookupPath d q ->
  readFileSync d' q = inr content <-> readFileSync d q = inr content.
Proof. intros H. rewrite !RuleFacts.readFileSync_File, H. reflexivity. Qed.

End RenderFacts.

(** X6. The renderer either returns or throws; it neither exits nor waits
    for input. When it returns, the template was a readable file, the
    destination holds the content of the template with the replacements
    applied, every other path of the disk is as before, and nothing was
    printed or read from the input. When it throws, every path other than
    the destination is as before, and nothing was printed or read. *)
Theorem copyFromTemplate_outcomes (templatePath newPath : path)
    (repl : list (string * string)) (w : world) :
  match copyFromTemplate templatePath newPath repl w with
  | Done _ w' =>
      exists content,
        readFileSync (disk w) templatePath = inr content /\
        readFileSync (disk w') newPath = inr (applyReplacements content repl) /\
        (forall q, q <> newPath -> lookupPath (disk w') q = lookupPath (disk w) q) /\
        stdin w' = stdin w /\ console w' = console w
  | Throw _ w' =>
      (forall q, q <> newPath -> lookupPath (disk w') q = lookupPath (disk w) q) /\
      stdin w' = stdin w /\ console w' = console w
  | Exit _ _ | Pending _ => False
  end.
Proof.
  pose proof (OutcomeFacts.batch_copyFromTemplate templatePath newPath repl w) as Hb.
  destruct (copyFromTemplate templatePath newPath repl w) as [[] w'| |e w'|] eqn:E;
    try contradiction.
  - apply RenderFacts.copyFromTemplate_Done_inv in E
      as (content & Hread & Hwrite & Hin & Hout).
    destruct (RuleFacts.writeFileSync_lookup _ _ _ _ Hwrite) as [Hnew Hframe].
    exists content. repeat split; auto.
    unfold readFileSync. rewrite Hnew. reflexivity.
  - rewrite (RenderFacts.copyFromTemplate_Throw_inv _ _ _ _ _ _ E). auto.
Qed.

(** X7. Two renders from one template to two different destinations, both
    other than the template: the template still has its content, and each
    destination holds the rendering made with its own replacements. *)
Theorem renders_are_independent (t n1 n2 : path)
    (repl1 repl2 : list (string * string)) (w w1 w2 : world) :
  n1 <> n2 -> t <> n1 -> t <> n2 ->
  copyFromTemplate t n1 repl1 w = Done tt w1 ->
  copyFromTemplate t n2 repl2 w1 = Done tt w2 ->
  exists content,
    readFileSync (disk w) t = inr content /\
    readFileSync (disk w2) t = inr content /\
    readFileSync (disk w2) n1 = inr (applyReplacements content repl1) /\
    readFileSync (disk w2) n2 = inr (applyReplacements content repl2).
Proof.
  intros H12 Ht1 Ht2 E1 E2.
  apply RenderFacts.copyFromTemplate_Done_inv in E1 as (c1 & Hr1 & Hw1 & _).
  apply RenderFacts.copyFromTemplate_Done_inv in E2 as (c2 & Hr2 & Hw2 & _).
  destruct (RuleFacts.writeFileSync_lookup _ _ _ _ Hw1) as [Hn1 Hf1].
  destruct (RuleFacts.writeFileSync_lookup _ _ _ _ Hw2) as [Hn2 Hf2].
  assert (Hc : c2 = c1).
  { apply (RenderFacts.readFileSync_frame _ _ t c2 (Hf1 t Ht1)) in Hr2. congruence. }
  subst c2. exists c1. split; [assumption|]. split; [|split].
  - apply (RenderFacts.readFileSync_frame _ _ t c1 (Hf2 t Ht2)).
    apply (RenderFacts.readFileSync_frame _ _ t c1 (Hf1 t Ht1)). assumption.
  - apply (RenderFacts.readFileSync_frame _ _ n1 _ (Hf2 n1 H12)).
    unfold readFileSync. rewrite Hn1. reflexivity.
  - unfold readFileSync. rewrite Hn2. reflexivity.
Qed.

(** X7 at two renders of the sample template, for the names a and b. *)
Lemma renders_are_independent_witness :
  exists content,
    readFileSync sampleDisk (credentialPath "template") = inr content /\
    readFileSync
      (disk (final (copyFromTemplate (credentialPath "template") (credentialPath "b")
                      [("MCP_NAME", "b")]
                      (final (copyFromTemplate (credentialPath "template")
                                (credentialPath "a") [("MCP_NAME", "a")]
                                (idle sampleDisk))))))
      (credentialPath "template") = inr content /\
    readFileSync
      (disk (final (copyFromTemplate (credentialPath "template") (credentialPath "b")
                      [("MCP_NAME", "b")]
                      (final (copyFromTemplate (credentialPath "template")
                                (credentialPath "a") [("MCP_NAME", "a")]
                                (idle sampleDisk))))))
      (credentialPath "a") = inr (applyReplacements content [("MCP_NAME", "a")]) /\
    readFileSync
      (disk (final (copyFromTemplate (credentialPath "template") (credentialPath "b")
                      [("MCP_NAME", "b")]
                      (final (copyFromTemplate (credentialPath "template")
                                (credentialPath "a") [("MCP_NAME", "a")]
                                (idle sampleDisk))))))
      (credentialPath "b") = inr (applyReplacements content [("MCP_NAME", "b")]).
Proof.
  apply (renders_are_independent (credentialPath "template")
           (credentialPath "a") (credentialPath "b")
           [("MCP_NAME", "a")] [("MCP_NAME", "b")] (idle sampleDisk)
           (final (copyFromTemplate (credentialPath "template")
                     (credentialPath "a") [("MCP_NAME", "a")] (idle sampleDisk)))).
  - discriminate.
  - discriminate.
  - discriminate.
  - reflexivity.
  - reflexivity.
Defined.

(** ** A run that completes (lines 171-281) *)

Module RunFacts.
Import ProcessFacts RuleFacts FrameFacts CollectFacts.

(** The review returns only on the answer y. *)
Lemma confirmApply_Done (w w2 : world) :
  confirmApply w = Done tt w2 ->
  exists confirm rest,
    stdin w = confirm :: rest /\ (confirm = "y" \/ confirm = "Y") /\
    w2 = {| stdin := rest; disk := disk w; console := console w ++ [reviewQuestion] |}.
Proof.
  destruct (stdin w) as [|confirm rest] eqn:Hin.
  - rewrite (OutcomeFacts.confirmApply_pending w Hin). discriminate.
  - destruct (decide (confirm = "y" \/ confirm = "Y")) as [Hy|Hn].
    + rewrite (confirmApply_accepted w confirm rest Hin Hy). intros [= <-]. eauto.
    + rewrite (confirmApply_declined w confirm rest Hin);
        [discriminate|intros ->; apply Hn; auto..].
Qed.

(** The overwrite confirmation returns on the unchanged disk, and when an
    instance of the name exists only on the answer y. *)
Lemma confirmOverwrite_Done (values : valuesMap) (w w3 : world) :
  confirmOverwrite values w = Done tt w3 ->
  disk w3 = disk w /\
  (instanceExists (disk w) (values !!! "MCP_NAME") = true ->
   exists overwrite, head (stdin w) = Some overwrite /\
                     (overwrite = "y" \/ overwrite = "Y")).
Proof.
  destruct (instanceExists (disk w) (values !!! "MCP_NAME")) eqn:Hfound.
  - destruct (stdin w) as [|overwrite rest] eqn:Hin.
    + rewrite (confirmOverwrite_pending values w Hfound Hin). discriminate.
    + destruct (decide (overwrite = "y" \/ overwrite = "Y")) as [Hy|Hn].
      * rewrite (confirmOverwrite_accepted values w overwrite rest Hfound Hin Hy).
        intros [= <-]. split; [reflexivity|]. intros _. exists overwrite. auto.
      * rewrite (confirmOverwrite_declined values w overwrite rest Hfound Hin);
          [discriminate|intros ->; apply Hn; auto..].
  - rewrite (confirmOverwrite_absent values w Hfound). intros [= <-].
    split; [reflexivity|discriminate].
Qed.

(** The process returns only when [main] does. *)
Lemma runMain_Done (w w' : world) : runMain w = Done tt w' -> main w = Done tt w'.
Proof.
  unfold runMain, catch. destruct (main w) as [[] w1| |e w1|]; try discriminate.
  intros [= <-]. reflexivity.
Qed.

(** The sample run for a new name, confirmed, completes. *)
Lemma sampleRun_completes :
  runMain (sampleRun "weather_api" ["y"])
  = Done tt (final (runMain (sampleRun "weather_api" ["y"]))).
Proof.
  destruct (sampleRun_review "weather_api" ["y"] eq_refl) as [out E].
  assert (Hmain : exists w', main (sampleRun "weather_api" ["y"]) = Done tt w').
  { rewrite (main_after_review _ _ _ "y" [] E eq_refl (or_introl eq_refl)).
    unfold afterReview.
    match goal with
    | |- context [(confirmOverwrite _ ≫= _) ?W] =>
        rewrite (bind_Done _ _ _ _ _
                   (confirmOverwrite_absent (sampleValues "weather_api" "") W eq_refl))
    end.
    match goal with
    | |- context [(applyChanges _ _ ≫= _) ?W] =>
        destruct (changes_spec (sampleValues "weather_api" "")
                    (replacements (sampleValues "weather_api" "")) W)
          as (d' & closing & E' & _)
    end.
    { repeat constructor; vm_compute; discriminate. }
    rewrite E'. eauto. }
  destruct Hmain as [w' Hmain]. unfold runMain, catch. rewrite Hmain. reflexivity.
Qed.

End RunFacts.

(** X8. A run that completes has reached the review with collected values,
    was confirmed there by the answer y, and, when an instance of the name
    existed, was confirmed again at the overwrite question; every template
    that was present is rendered to its destination with the replacement
    map of the collected values, no path other than the four destinations
    is changed, and the console shows the completion header. *)
Theorem completed_run_rendered (w w' : world) :
  runMain w = Done tt w' ->
  exists values w1 confirm rest,
    upToReview w = Done values w1 /\
    stdin w1 = confirm :: rest /\ (confirm = "y" \/ confirm = "Y") /\
    (instanceExists (disk w) (values !!! "MCP_NAME") = true ->
     exists overwrite, head rest = Some overwrite /\
                       (overwrite = "y" \/ overwrite = "Y")) /\
    (forall file content,
       file ∈ FILES ->
       readFileSync (disk w) (templatePathOf file) = inr content ->
       readFileSync (disk w') (newPathOf file (values !!! "MCP_NAME"))
       = inr (applyReplacements content (replacements values))) /\
    (forall q, ~ isDestination (values !!! "MCP_NAME") q ->
               lookupPath (disk w') q = lookupPath (disk w) q) /\
    reportsCompletion w'.
Proof.
  intros H. apply RunFacts.runMain_Done in H.
  rewrite ProcessFacts.main_split in H.
  apply CollectFacts.bind_Done_inv in H as (values & w1 & Eup & H).
  apply CollectFacts.bind_Done_inv in H as ([] & w2 & Ec & H).
  unfold afterReview in H.
  apply CollectFacts.bind_Done_inv in H as ([] & w3 & Eo & H).
  apply CollectFacts.bind_Done_inv in H as ([] & w4 & Ea & Hcomplete).
  pose proof (ProcessFacts.readOnly_upToReview w) as Hd1. rewrite Eup in Hd1.
  cbn [final] in Hd1.
  apply RunFacts.confirmApply_Done in Ec as (confirm & rest & Hin & Hy & ->).
  apply RunFacts.confirmOverwrite_Done in Eo as [Hd3 Hover].
  cbn [stdin disk] in Hd3, Hover. rewrite Hd1 in Hd3, Hover.
  destruct (ChangeFacts.applyChanges_Done _ _ _ _ Ea)
    as (_ & _ & _ & Hframe & Hread).
  rewrite Hd3 in Hframe, Hread.
  destruct (RuleFacts.complete_spec values w4) as (closing & E4).
  rewrite E4 in Hcomplete. injection Hcomplete as <-. cbn [disk].
  exists values, w1, confirm, rest.
  split; [exact Eup|]. split; [assumption|]. split; [assumption|].
  split; [assumption|]. split; [assumption|]. split.
  - intros q Hq. apply Hframe. intros f Hf ->. apply Hq. exists f. auto.
  - eexists _, _. reflexivity.
Qed.

(** X8 at the sample run for the new name [weather_api], confirmed. *)
Lemma completed_run_rendered_witness :
  exists values w1 confirm rest,
    upToReview (sampleRun "weather_api" ["y"]) = Done values w1 /\
    stdin w1 = confirm :: rest /\ (confirm = "y" \/ confirm = "Y") /\
    (instanceExists (disk (sampleRun "weather_api" ["y"])) (values !!! "MCP_NAME") = true ->
     exists overwrite, head rest = Some overwrite /\
                       (overwrite = "y" \/ overwrite = "Y")) /\
    (forall file content,
       file ∈ FILES ->
       readFileSync (disk (sampleRun "weather_api" ["y"])) (templatePathOf file)
       = inr content ->
       readFileSync (disk (final (runMain (sampleRun "weather_api" ["y"]))))
         (newPathOf file (values !!! "MCP_NAME"))
       = inr (applyReplacements content (replacements values))) /\
    (forall q, ~ isDestination (values !!! "MCP_NAME") q ->
               lookupPath (disk (final (runMain (sampleRun "weather_api" ["y"])))) q
               = lookupPath (disk (sampleRun "weather_api" ["y"])) q) /\
    reportsCompletion (final (runMain (sampleRun "weather_api" ["y"]))).
Proof.
  apply (completed_run_rendered (sampleRun "weather_api" ["y"])
           (final (runMain (sampleRun "weather_api" ["y"])))).
  apply RunFacts.sampleRun_completes.
Defined.

(** ** The scanner and the existence check (lines 147-165) *)

(** X9. Every name that the scanner returns is a name for which the
    existence check answers true on the same disk: the file that the
    scanner found is the first of the four that the check looks for. *)
Theorem listed_instances_exist (d : fs) (names : list string) (n : string) :
  getExistingInstances d = inr names -> n ∈ names -> instanceExists d n = true.
Proof.
  intros Hnames Hn.
  destruct (ScanFacts.getExistingInstances_spec d names Hnames) as (_ & _ & Hspec).
  apply Hspec in Hn as (_ & _ & _ & content & Hfile).
  apply instanceExists_spec. eexists. split; [apply list_elem_of_here|].
  unfold existsSync, newPathOf, join. cbn [dir newName]. rewrite Hfile. reflexivity.
Qed.

(** X9 on the sample disk, for the name foo. *)
Lemma listed_instances_exist_witness : instanceExists sampleDisk "foo" = true.
Proof.
  apply (listed_instances_exist sampleDisk ["bar"; "foo"] "foo").
  - vm_compute. reflexivity.
  - apply elem_of_cons. right. apply elem_of_cons. left. reflexivity.
Defined.

(** ** The files of other instances (lines 57-77, 245-256) *)

Module IsolationFacts.
Import StrFacts FrameFacts.

(** A destination determines its rule and its instance name. *)
Lemma destination_injective (f g : fileRule) (a b : string) :
  f ∈ FILES -> g ∈ FILES -> newPathOf f a = newPathOf g b -> f = g /\ a = b.
Proof.
  intros Hf Hg E.
  assert (Hrule : dir f = dir g /\ newName f a = newName g b)
    by (injection E; auto).
  destruct Hrule as [Hdir Hn]. clear E. unfold FILES in Hf, Hg.
  repeat (apply elem_of_cons in Hf as [->|Hf]);
    try (apply elem_of_nil in Hf; contradiction);
    repeat (apply elem_of_cons in Hg as [->|Hg]);
    try (apply elem_of_nil in Hg; contradiction);
    cbn [dir newName] in Hdir, Hn;
    first [ discriminate Hdir
          | apply str_app_inv_tail in Hn; split; [reflexivity|assumption] ].
Qed.

Lemma other_not_destination (mcpName other : string) (file : fileRule) :
  mcpName <> other -> file ∈ FILES -> ~ isDestination mcpName (newPathOf file other).
Proof.
  intros Hname Hfile (g & Hg & E).
  apply destination_injective in E as [_ E]; [|assumption..].
  apply Hname. symmetry. exact E.
Qed.

End IsolationFacts.

(** X10. A run leaves the four files of every instance other than the one
    it was given the name of as they were, however the run ends: rendering
    one instance never creates, changes or removes a file of another. *)
Theorem other_instances_kept (w : world) (other : string) (file : fileRule) :
  (forall values w1,
     upToReview w = Done values w1 -> values !!! "MCP_NAME" <> other) ->
  file ∈ FILES ->
  lookupPath (disk (final (runMain w))) (newPathOf file other)
  = lookupPath (disk w) (newPathOf file other).
Proof.
  intros Hname Hfile. unfold runMain.
  rewrite FrameFacts.catch_disk, ProcessFacts.main_split, ProcessFacts.bind_unfold.
  pose proof (ProcessFacts.readOnly_upToReview w) as Hdisk.
  destruct (upToReview w) as [values w1| | |] eqn:E; simpl in Hdisk;
    try (simpl; rewrite Hdisk; reflexivity).
  rewrite <- Hdisk. apply FrameFacts.writesOnly_afterReview.
  apply IsolationFacts.other_not_destination;
    [apply (Hname values w1); reflexivity|assumption].
Qed.

(** X10 at a run that chooses the name [weather_api] and confirms, for the
    external credential of foo. *)
Lemma other_instances_kept_witness :
  lookupPath (disk (final (runMain (sampleRun "weather_api" ["y"]))))
    (credentialPath "foo")
  = lookupPath sampleDisk (credentialPath "foo").
Proof.
  apply (other_instances_kept (sampleRun "weather_api" ["y"]) "foo"
           {| dir := "externalCredentials";
              oldName := TEMPLATE_NAME +:+ ".externalCredential-meta.xml";
              newName := fun name => name +:+ ".externalCredential-meta.xml" |}).
  - intros values w1 E'.
    destruct (ProcessFacts.sampleRun_review "weather_api" ["y"] eq_refl) as [out E].
    rewrite E in E'. injection E' as <- _. discriminate.
  - apply list_elem_of_here.
Defined.

(** ** How the loop over the rules can end (lines 243-256) *)

(** X11. The loop that applies the changes never exits and never waits for
    input. It returns only on a disk where every template that is present
    is a regular file and no destination of a present template is a
    directory, and then it has read no input and has reported the four
    rules in order. When it throws, no path other than the four
    destinations has changed. *)
Theorem applyChanges_outcomes (values : valuesMap) (repl : list (string * string))
    (w : world) :
  match applyChanges values repl w with
  | Done _ w' =>
      Forall (renderable (disk w) (values !!! "MCP_NAME")) FILES /\
      stdin w' = stdin w /\
      console w' =
        console w ++ LogHeader "Step 3: Applying Changes" ::
          (ruleReport (disk w) (values !!! "MCP_NAME") <$> FILES)
  | Throw _ w' =>
      forall q, ~ isDestination (values !!! "MCP_NAME") q ->
                lookupPath (disk w') q = lookupPath (disk w) q
  | Exit _ _ | Pending _ => False
  end.
Proof.
  pose proof (OutcomeFacts.batch_applyChanges values repl w) as Hb.
  destruct (applyChanges values repl w) as [[] w'| |e w'|] eqn:E;
    try contradiction.
  - destruct (ChangeFacts.applyChanges_Done values repl w w' E)
      as (Hall & Hin & Hout & _). auto.
  - intros q Hq.
    assert (Hw : writesOnly (isDestination (values !!! "MCP_NAME"))
                   (applyChanges values repl)).
    { unfold applyChanges.
      apply FrameFacts.writesOnly_bind;
        [apply FrameFacts.writesOnly_readOnly, ProcessFacts.readOnly_emit|intros _].
      apply FrameFacts.writesOnly_forOf. intros file Hfile.
      apply FrameFacts.writesOnly_applyRule. exists file. auto. }
    specialize (Hw w q Hq). rewrite E in Hw. exact Hw.
Qed.

(** ** The scanner after the changes (lines 155-165, 243-256) *)

Module ListingFacts.
Import ShapeFacts ScanFacts RuleFacts IsolationFacts.

(** What the identifier pattern accepts is not empty and holds neither a
    line terminator nor a dollar sign. *)
Lemma identifier_plain (s : string) :
  identifierStyle s ->
  s <> "" /\ Forall (fun c => ~ isLineTerminator c) (units s) /\ noDollar s.
Proof.
  intros (c & rest & -> & Hc & Hrest).
  assert (Hall : Forall (fun d => isLetter d \/ isDigit d \/ isUnderscore d)
                   (units (String c rest))).
  { apply Forall_cons. split; [left; assumption|assumption]. }
  split; [discriminate|]. unfold noDollar.
  split; eapply Forall_impl; try exact Hall; cbv beta;
    unfold isLetter, isDigit, isUnderscore, isLineTerminator.
  - intros d Hd. lia.
  - intros d Hd ->. change (code "$") with 36 in Hd. lia.
Qed.

End ListingFacts.

(** X12. When the changes, applied for a validated name other than the
    template name on a disk that holds the external-credential template,
    have returned, the scanner, where it returns before and after, lists
    afterwards the names that it listed before and the new name, and no
    other. *)
Theorem listing_after_changes (values : valuesMap) (repl : list (string * string))
    (w w' : world) (content : string) (names names' : list string) (m : string) :
  validator "MCP_NAME" (values !!! "MCP_NAME") = true ->
  values !!! "MCP_NAME" <> TEMPLATE_NAME ->
  readFileSync (disk w) (credentialPath TEMPLATE_NAME) = inr content ->
  applyChanges values repl w = Done tt w' ->
  getExistingInstances (disk w) = inr names ->
  getExistingInstances (disk w') = inr names' ->
  m ∈ names' <-> m ∈ names \/ m = values !!! "MCP_NAME".
Proof.
  set (n := values !!! "MCP_NAME"). intros Hvalid Hname Htemplate E En En'.
  destruct (ChangeFacts.applyChanges_Done values repl w w' E)
    as (_ & _ & _ & Hframe & Hread).
  fold n in Hframe, Hread.
  destruct (ScanFacts.getExistingInstances_spec _ _ En) as (_ & _ & Hspec).
  destruct (ScanFacts.getExistingInstances_spec _ _ En') as (_ & _ & Hspec').
  rewrite Hspec', Hspec.
  change (testWhole identifierRe n = true) in Hvalid.
  apply ShapeFacts.identifierRe_spec, ListingFacts.identifier_plain in Hvalid
    as (Hne & Hlt & _).
  destruct (decide (m = n)) as [->|Hm].
  - split; [auto|]. intros _.
    split; [assumption|]. split; [assumption|]. split; [assumption|].
    eexists. apply RuleFacts.readFileSync_File.
    apply (Hread _ content (list_elem_of_here _ _)). exact Htemplate.
  - assert (Hsame : lookupPath (disk w') (credentialPath m)
                    = lookupPath (disk w) (credentialPath m)).
    { apply Hframe. intros f Hf Eq.
      apply (IsolationFacts.destination_injective _ f m n
               (list_elem_of_here _ _) Hf) in Eq as [_ Eq].
      contradiction. }
    unfold isInstance. unfold credentialPath, join in Hsame. rewrite Hsame.
    split; [auto|]. intros [H|H]; [assumption|contradiction].
Qed.

(** X12 on the sample disk, for the new name [weather_api]. *)
Lemma listing_after_changes_witness :
  "foo" ∈ ["bar"; "foo"; "weather_api"] <->
  "foo" ∈ ["bar"; "foo"] \/ "foo" = sampleValues "weather_api" "" !!! "MCP_NAME".
Proof.
  apply (listing_after_changes (sampleValues "weather_api" "")
           (replacements (sampleValues "weather_api" "")) (idle sampleDisk)
           (final (applyChanges (sampleValues "weather_api" "")
                     (replacements (sampleValues "weather_api" "")) (idle sampleDisk)))
           "<label>MCP_NAME</label>" ["bar"; "foo"] ["bar"; "foo"; "weather_api"]
           "foo").
  - reflexivity.
  - discriminate.
  - reflexivity.
  - apply ChangeFacts.applyChanges_returns.
    repeat constructor; vm_compute; discriminate.
  - vm_compute. reflexivity.
  - vm_compute. reflexivity.
Defined.

(** ** Content without tokens (lines 131-137) *)

Module AbsentFacts.
Import StrFacts.

Lemma prefix_occurs (t s : string) :
  String.prefix t s = true <-> exists after, s = t +:+ after.
Proof.
  revert s. induction t as [|c t IH]; intros s.
  - split; [intros _; exists s; reflexivity|]. intros _. destruct s; reflexivity.
  - destruct s as [|d s]; cbn [String.prefix].
    + split; [discriminate|]. intros [after H]. discriminate.
    + destruct (ascii_dec c d) as [->|Hcd].
      * rewrite IH. split; intros [after H]; exists after.
        -- rewrite str_app_cons, H. reflexivity.
        -- rewrite str_app_cons in H. injection H as ->. reflexivity.
      * split; [discriminate|]. intros [after H].
        rewrite str_app_cons in H. injection H as <- _. contradiction.
Qed.

(** The search of StringIndexOf finds a token exactly when it occurs. *)
Lemma scan_occurs (t s : string) (i : nat) :
  is_Some (JS.scan t s i) <-> occursIn t s.
Proof.
  unfold occursIn. revert i. induction s as [|c s IH]; intros i; cbn [JS.scan].
  - destruct (String.prefix t "") eqn:E.
    + split; [|eauto]. intros _. apply prefix_occurs in E as [after E].
      exists "", after. rewrite str_app_nil_l. exact E.
    + split; [intros [p H]; discriminate|]. intros (before & after & H).
      symmetry in H. apply str_app_eq_nil in H as [-> H].
      assert (String.prefix t "" = true)
        by (apply prefix_occurs; exists after; symmetry; exact H).
      congruence.
  - destruct (String.prefix t (String c s)) eqn:E.
    + split; [|eauto]. intros _. apply prefix_occurs in E as [after E].
      exists "", after. rewrite str_app_nil_l. exact E.
    + rewrite IH. split; intros (before & after & H).
      * exists (String c before), after. rewrite str_app_cons, H. reflexivity.
      * destruct before as [|b before].
        -- rewrite str_app_nil_l in H.
           assert (String.prefix t (String c s) = true)
             by (apply prefix_occurs; eauto).
           congruence.
        -- rewrite str_app_cons in H. injection H as _ ->. eauto.
Qed.

(** Nothing to replace: replaceAll returns the string, whatever the
    replacement value. *)
Lemma replaceAll_absent (s token value : string) :
  ~ occursIn token s -> JS.replaceAll s token value = s.
Proof.
  intros H. unfold JS.replaceAll, JS.stringIndexOf. cbn [Nat.leb JS.drop].
  destruct (JS.scan token s 0) as [p|] eqn:E.
  - exfalso. apply H, (scan_occurs token s 0). rewrite E. eauto.
  - cbn [JS.matchPositions fold_left].
    destruct s as [|c s]; [reflexivity|]. cbn [String.length Nat.ltb Nat.leb JS.drop].
    apply str_app_nil_l.
Qed.

(** A token that the search does not find does not occur. *)
Lemma absent (token s : string) : JS.scan token s 0 = None -> ~ occursIn token s.
Proof.
  intros E H. apply (scan_occurs token s 0) in H as [p H]. congruence.
Qed.

End AbsentFacts.

(** X13. A content in which no token of the map occurs is rendered as it
    is, whatever the values, dollar patterns included. *)
Theorem applyReplacements_absent (content : string)
    (repl : list (string * string)) :
  Forall (fun p => ~ occursIn (fst p) content) repl ->
  applyReplacements content repl = content.
Proof.
  unfold applyReplacements. induction repl as [|[token value] repl IH]; intros H;
    [reflexivity|].
  apply Forall_cons in H as [Ht H]. cbn [fold_left].
  rewrite (AbsentFacts.replaceAll_absent content token value Ht). apply IH, H.
Qed.

(** X13 at a content without tokens and values that are dollar patterns. *)
Lemma applyReplacements_absent_witness :
  applyReplacements "<label>plain</label>"
    [("MCP_NAME", "$&$&"); ("MCP_SERVER_URL", "https://x/$'")]
  = "<label>plain</label>".
Proof.
  apply (applyReplacements_absent "<label>plain</label>"
           [("MCP_NAME", "$&$&"); ("MCP_SERVER_URL", "https://x/$'")]).
  repeat constructor; apply AbsentFacts.absent; reflexivity.
Defined.

(** ** Validated names are substituted as they are (lines 29, 50, 131-137, 199-205) *)

Module PlainFacts.
Import StrFacts ShapeFacts ListingFacts.

Lemma units_app (s t : string) : units (s +:+ t) = units s ++ units t.
Proof.
  induction s as [|c s IH]; [rewrite str_app_nil_l; reflexivity|].
  rewrite str_app_cons. unfold units in *. simpl. rewrite IH. reflexivity.
Qed.

Lemma noDollar_namespacePrefix (values : valuesMap) :
  validator "NAMESPACE" (values !!! "NAMESPACE") = true ->
  noDollar (namespacePrefix values).
Proof.
  intros H. unfold namespacePrefix, truthy.
  change (String.eqb (values !!! "NAMESPACE") ""
          || testWhole identifierRe (values !!! "NAMESPACE") = true) in H.
  destruct (String.eqb (values !!! "NAMESPACE") ""); cbn [negb]; [constructor|].
  cbn [orb] in H. apply identifierRe_spec, identifier_plain in H as (_ & _ & H).
  unfold noDollar. rewrite units_app. apply Forall_app. split; [exact H|].
  repeat constructor; discriminate.
Qed.

End PlainFacts.

(** X14. With a name and a namespace that passed their validation and two
    URLs that hold no dollar sign, the replacement map of the run renders
    every content literally: each of the four tokens, in the order of the
    map, has every occurrence replaced by its value as it is. *)
Theorem validated_values_render_literally (values : valuesMap) (content : string) :
  validator "MCP_NAME" (values !!! "MCP_NAME") = true ->
  validator "NAMESPACE" (values !!! "NAMESPACE") = true ->
  noDollar (values !!! "MCP_SERVER_URL") ->
  noDollar (values !!! "AUTH_PROVIDER_URL") ->
  applyReplacements content (replacements values)
  = applyLiterally content (replacements values).
Proof.
  intros Hname Hns Hurl Hauth.
  change (testWhole identifierRe (values !!! "MCP_NAME") = true) in Hname.
  apply ShapeFacts.identifierRe_spec, ListingFacts.identifier_plain in Hname
    as (_ & _ & Hname).
  apply PlainFacts.noDollar_namespacePrefix in Hns.
  unfold applyReplacements, applyLiterally, replacements. cbn [fold_left].
  rewrite (ReplaceFacts.replaceAll_literal "MCP_NAME" _ ltac:(discriminate) _ Hname).
  rewrite (ReplaceFacts.replaceAll_literal "MCP_SERVER_URL" _ ltac:(discriminate) _ Hurl).
  rewrite (ReplaceFacts.replaceAll_literal "AUTH_PROVIDER_URL" _ ltac:(discriminate) _ Hauth).
  rewrite (ReplaceFacts.replaceAll_literal "NAMESPACE__" _ ltac:(discriminate) _ Hns).
  reflexivity.
Qed.

(** X14 at the values of the sample run with the namespace [acme]. *)
Lemma validated_values_render_literally_witness :
  applyReplacements "<label>NAMESPACE__MCP_NAME</label>"
    (replacements (sampleValues "weather_api" "acme"))
  = applyLiterally "<label>NAMESPACE__MCP_NAME</label>"
      (replacements (sampleValues "weather_api" "acme")).
Proof.
  apply (validated_values_render_literally (sampleValues "weather_api" "acme")
           "<label>NAMESPACE__MCP_NAME</label>").
  - reflexivity.
  - reflexivity.
  - change (noDollar "https://mcp.example.com/api").
    repeat constructor; discriminate.
  - change (noDollar "https://auth.example.com/oauth/token").
    repeat constructor; discriminate.
Defined.

